(** * docker-extract: applying one Docker layer tar onto a root filesystem

    A shallow embedding of [src/docker-extract.c] and the properties of its
    two passes (whiteout application, then extraction).

    Definitions:
    - [CString]   : the C string functions the program uses;
    - [Archive]   : libarchive's status codes, file types and entry stream;
    - [Proc]      : the process monad (world state, event trace, [exit]);
    - [Sys]       : the interface of the collaborators that are not in the
                    source (util/file.h, unistd, util/registry.h, libarchive);
    - [DockerExtract] : the functions of the source, over [Sys];
    - [Posix]     : a file system that implements [Sys];
    - [Paths], [Events], [Scenario] : the notions the statements use and
                    the concrete layers they are tried on.

    Theorems: facts about the string functions and the monad; what each
    phase logs and how it ends; the orchestrator; the scanner on the file
    system (deletions only shrink the tree, a second scan is a no-op, a
    named marker's target is gone, deletions stay below the rootfs when no
    derived path climbs through [..]). *)

From Stdlib Require Import ZArith String Ascii List Lia Bool.
From stdpp Require Import base option list strings gmap.

Local Open Scope Z_scope.
#[local] Arguments String.append !_ _ / : simpl nomatch.

(* ===================================================================== *)
(** ** C strings *)
(* ===================================================================== *)

Module CString.

(** [size_t] values in this program are lengths of strings held in memory
    and sums of two such lengths plus two; they are kept in [nat].  With
    strings that fit the address space the 64-bit arithmetic of the
    machine gives the same numbers: see [whiteout_sizes_do_not_wrap] and
    [opaque_sizes_do_not_wrap] below. *)
Definition strlen (s : string) : nat := String.length s.

(** A [size_t] result on the machine: the value modulo [2^64]. *)
Definition size_t (z : Z) : Z := z mod 2 ^ 64.

(** [strstr(hay, needle)]: the suffix of [hay] that starts at the first
    occurrence of [needle]; [None] stands for the NULL pointer. *)
Fixpoint strstr (hay needle : string) : option string :=
  if String.prefix needle hay then Some hay
  else match hay with
       | EmptyString => None
       | String _ rest => strstr rest needle
       end.

(** [strrchr(s, c)] for [c <> NUL]: the suffix of [s] that starts at the
    last occurrence of [c]. *)
Fixpoint strrchr (s : string) (c : ascii) : option string :=
  match s with
  | EmptyString => None
  | String a rest =>
      match strrchr rest c with
      | Some t => Some t
      | None => if Ascii.eqb a c then Some s else None
      end
  end.

(** First [n] characters of [s]. *)
Fixpoint take_str (n : nat) (s : string) : string :=
  match n, s with
  | S n', String a rest => String a (take_str n' rest)
  | _, _ => EmptyString
  end.

(** Suffix of [s] after its first [n] characters (pointer [s + n]). *)
Fixpoint drop_str (n : nat) (s : string) : string :=
  match n, s with
  | S n', String _ rest => drop_str n' rest
  | _, _ => s
  end.

(** [snprintf(buf, n, "%s", s)] with [n >= 1]: at most [n - 1] characters
    are stored, then NUL. *)
Definition snprintf_s (n : nat) (s : string) : string :=
  take_str (n - 1) s.

(** [snprintf(buf, n, "%s%s", a, b)]. *)
Definition snprintf_ss (n : nat) (a b : string) : string :=
  take_str (n - 1) (a +:+ b).

(** [snprintf(buf, n, "%s/%s", a, b)]. *)
Definition snprintf_path (n : nat) (a b : string) : string :=
  take_str (n - 1) (a +:+ "/" +:+ b).

(** Does [needle] occur in [hay]?  ([strstr(...) != NULL].) *)
Definition contains (hay needle : string) : bool :=
  match strstr hay needle with Some _ => true | None => false end.

End CString.

(* ===================================================================== *)
(** ** libarchive: status codes, file types, entries *)
(* ===================================================================== *)

Module Archive.

Definition ARCHIVE_EOF    : Z := 1.
Definition ARCHIVE_OK     : Z := 0.
Definition ARCHIVE_RETRY  : Z := -10.
Definition ARCHIVE_WARN   : Z := -20.
Definition ARCHIVE_FAILED : Z := -25.
Definition ARCHIVE_FATAL  : Z := -30.

(** File types of [archive_entry_filetype] (octal 0170000 family). *)
Definition AE_IFREG  : Z := 32768.
Definition AE_IFLNK  : Z := 40960.
Definition AE_IFSOCK : Z := 49152.
Definition AE_IFCHR  : Z := 8192.
Definition AE_IFBLK  : Z := 24576.
Definition AE_IFDIR  : Z := 16384.
Definition AE_IFIFO  : Z := 4096.

(** Options of [archive_write_disk_set_options]. *)
Definition ARCHIVE_EXTRACT_PERM   : Z := 2.
Definition ARCHIVE_EXTRACT_TIME   : Z := 4.
Definition ARCHIVE_EXTRACT_ACL    : Z := 32.
Definition ARCHIVE_EXTRACT_FFLAGS : Z := 64.
Definition ARCHIVE_EXTRACT_SECURE_SYMLINKS        : Z := 256.
Definition ARCHIVE_EXTRACT_SECURE_NODOTDOT        : Z := 512.
Definition ARCHIVE_EXTRACT_SECURE_NOABSOLUTEPATHS : Z := 65536.

(** One result of [archive_read_data_block]: status, buffer, offset. *)
Record block := Block {
  b_status : Z;
  b_buff   : string;
  b_offset : Z
}.

(** An archive entry: what [archive_entry_pathname], [_filetype] and
    [_size] return, and the data blocks that follow its header (after the
    last one the reader answers [ARCHIVE_EOF]). *)
Record entry := Entry {
  pathname : string;
  filetype : Z;
  size     : Z;
  blocks   : list block
}.

(** One result of [archive_read_next_header]. *)
Record header := Header {
  h_status : Z;
  h_entry  : entry
}.

(** An opened archive: the headers it will deliver (then [ARCHIVE_EOF]),
    and the status [archive_read_free] will answer. *)
Record archive := MkArchive {
  headers     : list header;
  free_status : Z
}.

End Archive.

(* ===================================================================== *)
(** ** The process monad *)
(* ===================================================================== *)

Module Proc.
Import Archive.

Inductive level := ERROR | WARNING | DEBUG.

(** What the process does to the outside, in order. *)
Inductive event :=
| EvMessage (lvl : level) (fmt : string) (args : list string)
| EvRmdir (path : string) (ret : Z)
| EvUnlink (path : string) (ret : Z)
| EvChdir (path : string) (ret : Z)
| EvOpen (tarfile : string) (ret : Z)
| EvOptions (flags : Z)
| EvWriteHeader (e : entry) (ret : Z)
| EvWriteData (buff : string) (offset : Z) (ret : Z)
| EvFinishEntry (ret : Z).

(** A C function either returns a value or the process has exited
    ([ABORT(255)]). *)
Inductive outcome (A : Type) :=
| Ret (a : A)
| Exit (status : Z).
Arguments Ret {A} a.
Arguments Exit {A} status.

Section Monad.
Context {world : Type}.

Definition M (A : Type) : Type := world -> outcome A * world * list event.

Definition ret {A} (a : A) : M A := fun w => (Ret a, w, []).

Definition bind {A B} (m : M A) (f : A -> M B) : M B :=
  fun w =>
    match m w with
    | (Ret a, w1, t1) =>
        match f a w1 with
        | (o, w2, t2) => (o, w2, t1 ++ t2)
        end
    | (Exit c, w1, t1) => (Exit c, w1, t1)
    end.

(** [exit(status)]. *)
Definition exit_with {A} (status : Z) : M A := fun w => (Exit status, w, []).

(** A call that reads the world. *)
Definition ask {A} (f : world -> A) : M A := fun w => (Ret (f w), w, []).

(** A call that changes the world and answers a status, logged by [ev]. *)
Definition call (f : world -> Z * world) (ev : Z -> event) : M Z :=
  fun w => match f w with (r, w') => (Ret r, w', [ev r]) end.

Definition emit (ev : event) : M unit := fun w => (Ret tt, w, [ev]).

Definition result_of {A} (x : outcome A * world * list event) : outcome A :=
  fst (fst x).
Definition world_of {A} (x : outcome A * world * list event) : world :=
  snd (fst x).
Definition trace_of {A} (x : outcome A * world * list event) : list event :=
  snd x.
End Monad.

End Proc.

Import CString Archive Proc.

Notation "x <- m ;; k" := (bind m (fun x => k))
  (at level 100, m at next level, right associativity).
Notation "m ;;; k" := (bind m (fun _ => k))
  (at level 100, right associativity).

(* ===================================================================== *)
(** ** The collaborators that are not in the source *)
(* ===================================================================== *)

(** The program calls util/file.h ([is_dir], [is_file], [s_rmdir]), unistd
    ([unlink], [chdir], [get_current_dir_name]), util/registry.h and
    libarchive.  None of them is in [src/]; the program is embedded over
    this interface, each call taking the world and answering a status (and
    the new world when it can change it). *)
Class Sys (world : Type) := {
  is_dir : string -> world -> Z;
  is_file : string -> world -> Z;
  s_rmdir : string -> world -> Z * world;
  unlink : string -> world -> Z * world;
  chdir : string -> world -> Z * world;
  get_current_dir_name : world -> string;
  singularity_registry_get : string -> world -> option string;
  archive_read_open_filename : string -> world -> Z * archive;
  archive_write_disk_set_options : Z -> world -> Z * world;
  archive_write_header : entry -> world -> Z * world;
  archive_write_data_block : string -> Z -> world -> Z * world;
  archive_write_finish_entry : world -> Z * world
}.

(* ===================================================================== *)
(** ** src/docker-extract.c *)
(* ===================================================================== *)

Module DockerExtract.

(** Modelled from the spec: the macro [ABORT] of util/util.h is not in
    [src/]; the spec gives "exit code 255 on any fatal error", so
    [ABORT(255)] ends the process with status 255. *)
Definition ABORT {world A} (status : Z) : @M world A := exit_with status.

Section Program.
Context {world : Type} `{Sys world}.

(** [singularity_message(level, fmt, args...)]; the texts of
    [archive_error_string] are not modelled and are left out of [args]. *)
Definition singularity_message (lvl : level) (fmt : string)
    (args : list string) : @M world unit :=
  emit (EvMessage lvl fmt args).

(** Lines 25-53. *)
Definition apply_opaque (opq_marker rootfs_dir : string) : @M world Z :=
  let retval := 0 in
  match strrchr opq_marker "/" with
  | None =>
      singularity_message ERROR "Error getting dirname for opaque marker\n" [] ;;;
      ABORT 255
  | Some token =>
      let buff_len := (strlen opq_marker - strlen token + 1)%nat in
      let opq_dir := snprintf_s buff_len opq_marker in
      let buff_len := (strlen rootfs_dir + 1 + strlen opq_dir + 1)%nat in
      let opq_dir_rootfs := snprintf_path buff_len rootfs_dir opq_dir in
      d <- ask (is_dir opq_dir_rootfs) ;;
      (if d =? 0
       then call (s_rmdir opq_dir_rootfs) (EvRmdir opq_dir_rootfs) ;;; ret tt
       else ret tt) ;;;
      ret retval
  end.

(** Lines 61-105. *)
Definition apply_whiteout (wh_marker rootfs_dir : string) : @M world Z :=
  let retval := 0 in
  match strstr wh_marker ".wh." with
  | None =>
      singularity_message ERROR "Error getting filename for whiteout marker\n" [] ;;;
      ABORT 255
  | Some token =>
      let token_pos := (strlen wh_marker - strlen token)%nat in
      let buff_len := (strlen wh_marker - strlen ".wh." + 1)%nat in
      let prefix_str := snprintf_s (token_pos + 1) wh_marker in
      let suffix_str := snprintf_s (buff_len - token_pos) (drop_str 4 token) in
      let wh_path := snprintf_ss buff_len prefix_str suffix_str in
      let buff_len := (strlen rootfs_dir + 1 + strlen wh_path + 1)%nat in
      let wh_path_rootfs := snprintf_path buff_len rootfs_dir wh_path in
      d <- ask (is_dir wh_path_rootfs) ;;
      if d =? 0 then
        call (s_rmdir wh_path_rootfs) (EvRmdir wh_path_rootfs)
      else
        f <- ask (is_file wh_path_rootfs) ;;
        if f =? 0 then
          singularity_message DEBUG "Removing whiteout-ed file: %s\n"
                              [wh_path_rootfs] ;;;
          call (unlink wh_path_rootfs) (EvUnlink wh_path_rootfs)
        else ret retval
  end.

(** The [while] loop of lines 129-146; the result is [errcode] at the
    loop's exit.  The loop ends at the first header that is not
    [ARCHIVE_OK] (end of archive included) or at a [break]. *)
Fixpoint apply_whiteouts_loop (hs : list header) (rootfs_dir : string)
    : @M world Z :=
  match hs with
  | [] => ret 0
  | h :: rest =>
      if h_status h =? ARCHIVE_OK then
        let pathname := pathname (h_entry h) in
        if contains pathname "/.wh..wh..opq" then
          singularity_message DEBUG "Opaque Marker %s\n" [pathname] ;;;
          errcode <- apply_opaque pathname rootfs_dir ;;
          if negb (errcode =? 0) then ret errcode
          else apply_whiteouts_loop rest rootfs_dir
        else if contains pathname "/.wh." then
          singularity_message DEBUG "Whiteout Marker %s\n" [pathname] ;;;
          errcode <- apply_whiteout pathname rootfs_dir ;;
          if negb (errcode =? 0) then ret errcode
          else apply_whiteouts_loop rest rootfs_dir
        else apply_whiteouts_loop rest rootfs_dir
      else ret 0
  end.

(** Lines 110-158. *)
Definition apply_whiteouts (tarfile rootfs_dir : string) : @M world Z :=
  opened <- ask (archive_read_open_filename tarfile) ;;
  let retval := fst opened in
  let a := snd opened in
  emit (EvOpen tarfile retval) ;;;
  if negb (retval =? ARCHIVE_OK) then ret 1
  else
    errcode <- apply_whiteouts_loop (headers a) rootfs_dir ;;
    let retval := free_status a in
    if negb (retval =? ARCHIVE_OK) then
      singularity_message ERROR "Error freeing archive\n" [] ;;;
      ABORT 255
    else ret errcode.

(** Lines 161-181; [bs] are the results [archive_read_data_block] will
    give for the current entry. *)
Fixpoint copy_data (bs : list block) : @M world Z :=
  match bs with
  | [] => ret ARCHIVE_OK
  | b :: rest =>
      let r := b_status b in
      if r =? ARCHIVE_EOF then ret ARCHIVE_OK
      else if r <? ARCHIVE_OK then ret r
      else
        r <- call (archive_write_data_block (b_buff b) (b_offset b))
                  (EvWriteData (b_buff b) (b_offset b)) ;;
        if r <? ARCHIVE_OK then
          singularity_message ERROR "tar extraction error: %s\n" [] ;;;
          ret r
        else copy_data rest
  end.

(** The test of lines 250-251. *)
Definition skipped (e : entry) : bool :=
  contains (pathname e) "/.wh."
  || (filetype e =? AE_IFSOCK) || (filetype e =? AE_IFCHR)
  || (filetype e =? AE_IFBLK) || (filetype e =? AE_IFIFO).

(** Lines 255-275: one entry that is not skipped. *)
Definition extract_entry (e : entry) : @M world unit :=
  r <- call (archive_write_header e) (EvWriteHeader e) ;;
  (if r <? ARCHIVE_OK then
     singularity_message WARNING "Warning handling tar header: %s\n" []
   else if size e >? 0 then
     r <- copy_data (blocks e) ;;
     (if r <? ARCHIVE_OK then
        singularity_message WARNING "Warning handling tar header: %s\n" []
      else ret tt) ;;;
     (if r <? ARCHIVE_WARN then
        singularity_message ERROR "Error handling tar header: %s\n" [] ;;;
        ABORT 255
      else ret tt)
   else ret tt) ;;;
  r <- call archive_write_finish_entry EvFinishEntry ;;
  (if r <? ARCHIVE_OK then
     singularity_message WARNING "Warning freeing archive entry: %s\n" []
   else ret tt) ;;;
  (if r <? ARCHIVE_WARN then
     singularity_message ERROR "Error freeing archive entry: %s\n" [] ;;;
     ABORT 255
   else ret tt).

(** The [for (;;)] loop of lines 230-276. *)
Fixpoint extract_loop (hs : list header) : @M world unit :=
  match hs with
  | [] => ret tt
  | h :: rest =>
      let r := h_status h in
      if r =? ARCHIVE_EOF then ret tt
      else
        (if r <? ARCHIVE_OK then
           singularity_message WARNING "Warning reading tar header: %s\n" []
         else ret tt) ;;;
        (if r <? ARCHIVE_WARN then
           singularity_message ERROR "Error reading tar header: %s\n" [] ;;;
           ABORT 255
         else ret tt) ;;;
        let e := h_entry h in
        if skipped e then extract_loop rest
        else extract_entry e ;;; extract_loop rest
  end.

(** Lines 203-206. *)
Definition extract_flags : Z :=
  Z.lor (Z.lor (Z.lor ARCHIVE_EXTRACT_TIME ARCHIVE_EXTRACT_PERM)
               ARCHIVE_EXTRACT_ACL)
        ARCHIVE_EXTRACT_FFLAGS.

(** Lines 189-296. *)
Definition extract_tar (tarfile rootfs_dir : string) : @M world Z :=
  let retval := 0 in
  orig_dir <- ask get_current_dir_name ;;
  let flags := extract_flags in
  call (archive_write_disk_set_options flags) (fun _ => EvOptions flags) ;;;
  opened <- ask (archive_read_open_filename tarfile) ;;
  let r := fst opened in
  let a := snd opened in
  emit (EvOpen tarfile r) ;;;
  (if negb (r =? 0) then
     singularity_message ERROR "Error opening tar file %s\n" [tarfile] ;;;
     ABORT 255
   else ret tt) ;;;
  r <- call (chdir rootfs_dir) (EvChdir rootfs_dir) ;;
  (if r <? 0 then
     singularity_message ERROR "Could not chdir to SINGULARITY_ROOTFS %s\n"
                         [rootfs_dir] ;;;
     ABORT 255
   else ret tt) ;;;
  extract_loop (headers a) ;;;
  r <- call (chdir orig_dir) (EvChdir orig_dir) ;;
  (if r <? 0 then
     singularity_message ERROR "Could not chdir back to %s\n" [orig_dir] ;;;
     ABORT 255
   else ret tt) ;;;
  ret retval.

(** Lines 298-342; [argv] holds [argv[0]], [argv[1]], ... *)
Definition main (argc : Z) (argv : list string) : @M world Z :=
  rootfs <- ask (singularity_registry_get "ROOTFS") ;;
  if negb (argc =? 2) then
    singularity_message ERROR "Provide a single docker tar file to extract\n" [] ;;;
    ABORT 255
  else
    match rootfs with
    | None =>
        singularity_message ERROR "Environment is not properly setup\n" [] ;;;
        ABORT 255
    | Some rootfs_dir =>
        d <- ask (is_dir rootfs_dir) ;;
        if d <? 0 then
          singularity_message ERROR "SINGULARITY_ROOTFS does not exist\n" [] ;;;
          ABORT 255
        else
          let tarfile := nth 1 argv ""%string in
          f <- ask (is_file tarfile) ;;
          if f <? 0 then
            singularity_message ERROR "tar file does not exist: %s\n" [tarfile] ;;;
            ABORT 255
          else
            singularity_message DEBUG "Applying whiteouts for tar file %s\n"
                                [tarfile] ;;;
            retval <- apply_whiteouts tarfile rootfs_dir ;;
            if negb (retval =? 0) then
              singularity_message ERROR "Error applying layer whiteouts\n" [] ;;;
              ABORT 255
            else
              singularity_message DEBUG "Extracting docker tar file %s\n"
                                  [tarfile] ;;;
              retval <- extract_tar tarfile rootfs_dir ;;
              if negb (retval =? 0) then
                singularity_message ERROR "Error extracting tar file\n" [] ;;;
                ABORT 255
              else ret retval
    end.

(** The status the process ends with. *)
Definition exit_status (o : outcome Z) : Z :=
  match o with Ret r => r | Exit c => c end.

End Program.
End DockerExtract.

(* ===================================================================== *)
(** ** A file system for the interface *)
(* ===================================================================== *)

(** Modelled from the spec: util/file.c ([is_dir], [is_file], [s_rmdir]) and
    the archive library are not in [src/].  The spec has [s_rmdir] "remove
    it and its full contents recursively", [is_dir]/[is_file] test for "an
    existing directory" / "an existing regular file", and the writer
    "materialize the entry on disk".  Paths are resolved the POSIX way,
    component by component, [..] stepping to the parent of a directory that
    exists.  The tree has directories, regular files and special nodes; it
    has no symbolic links. *)
Module Posix.

Inductive content :=
| Raw (s : string)
| Tar (a : archive).

Inductive node :=
| NDir
| NFile (c : content)
| NSpecial.

(** A location: the names from the root down. *)
Abbreviation loc := (list string).

Record world := World {
  files    : gmap loc node;
  cwd      : loc;
  locked   : list loc;          (* nodes whose removal is denied *)
  registry : option string;     (* the value of ROOTFS *)
  options  : Z;                 (* the disk writer's options *)
  writing  : option loc         (* the entry the disk writer has open *)
}.

Definition with_files (w : world) (fs : gmap loc node) : world :=
  World fs (cwd w) (locked w) (registry w) (options w) (writing w).
Definition with_cwd (w : world) (c : loc) : world :=
  World (files w) c (locked w) (registry w) (options w) (writing w).
Definition with_options (w : world) (o : Z) : world :=
  World (files w) (cwd w) (locked w) (registry w) o (writing w).
Definition with_writing (w : world) (t : option loc) : world :=
  World (files w) (cwd w) (locked w) (registry w) (options w) t.

(** The components of a path string, split at each [/]. *)
Fixpoint components (s : string) : list string :=
  match s with
  | EmptyString => [EmptyString]
  | String a rest =>
      if Ascii.eqb a "/" then EmptyString :: components rest
      else match components rest with
           | c :: cs => String a c :: cs
           | [] => [String a EmptyString]
           end
  end.

Definition is_directory (fs : gmap loc node) (l : loc) : bool :=
  match fs !! l with Some NDir => true | _ => false end.

(** Walk [comps] from [cur]; every step is taken inside an existing
    directory. *)
Fixpoint walk (fs : gmap loc node) (cur : loc) (comps : list string)
    : option loc :=
  match comps with
  | [] => Some cur
  | c :: rest =>
      if is_directory fs cur then
        if String.eqb c "" || String.eqb c "." then walk fs cur rest
        else if String.eqb c ".." then walk fs (removelast cur) rest
        else walk fs (cur ++ [c]) rest
      else None
  end.

Definition resolve (w : world) (p : string) : option loc :=
  match p with
  | EmptyString => None
  | String a rest =>
      if Ascii.eqb a "/" then walk (files w) [] (components rest)
      else walk (files w) (cwd w) (components p)
  end.

Definition stat (w : world) (p : string) : option node :=
  match resolve w p with
  | Some l => files w !! l
  | None => None
  end.

(** Modelled from the spec: [is_dir] of util/file.c is not in [src/]; it
    answers 0 for "an existing directory" (the program compares its result
    with 0 and, in [main], with [< 0]). *)
Definition px_is_dir (p : string) (w : world) : Z :=
  match stat w p with Some NDir => 0 | _ => -1 end.

(** Modelled from the spec: [is_file] of util/file.c is not in [src/]; it
    answers 0 for "an existing regular file". *)
Definition px_is_file (p : string) (w : world) : Z :=
  match stat w p with Some (NFile _) => 0 | _ => -1 end.

(** Is the removal of [l] or of something below it denied?  The root is
    never removed. *)
Definition denied (w : world) (l : loc) : bool :=
  bool_decide (l = [])
  || existsb (fun k => bool_decide (l `prefix_of` k)
                       && bool_decide (is_Some (files w !! k)))
             (locked w).

Definition px_unlink (p : string) (w : world) : Z * world :=
  match resolve w p with
  | Some l =>
      match files w !! l with
      | Some NDir | None => (-1, w)
      | Some _ =>
          if bool_decide (l = []) || bool_decide (l ∈ locked w) then (-1, w)
          else (0, with_files w (delete l (files w)))
      end
  | None => (-1, w)
  end.

(** Everything at or below [l] goes. *)
Definition remove_tree (l : loc) (fs : gmap loc node) : gmap loc node :=
  filter (fun kv : loc * node => ¬ l `prefix_of` kv.1) fs.

(** Modelled from the spec: [s_rmdir] of util/file.c is not in [src/]; it
    is to "remove it and its full contents recursively".  It fails, and
    here removes nothing, when a node of the tree cannot be removed. *)
Definition px_s_rmdir (p : string) (w : world) : Z * world :=
  match resolve w p with
  | Some l =>
      match files w !! l with
      | None => (-1, w)
      | Some _ =>
          if denied w l then (-1, w)
          else (0, with_files w (remove_tree l (files w)))
      end
  | None => (-1, w)
  end.

Definition px_chdir (p : string) (w : world) : Z * world :=
  match resolve w p with
  | Some l => if is_directory (files w) l then (0, with_cwd w l) else (-1, w)
  | None => (-1, w)
  end.

Fixpoint render (l : loc) : string :=
  match l with
  | [] => ""
  | c :: rest => "/" +:+ c +:+ render rest
  end.

Definition px_get_current_dir_name (w : world) : string :=
  match cwd w with [] => "/" | l => render l end.

Definition px_registry_get (key : string) (w : world) : option string :=
  if String.eqb key "ROOTFS" then registry w else None.

Definition px_open (p : string) (w : world) : Z * archive :=
  match stat w p with
  | Some (NFile (Tar a)) => (ARCHIVE_OK, a)
  | _ => (ARCHIVE_FATAL, MkArchive [] ARCHIVE_OK)
  end.

Definition px_set_options (flags : Z) (w : world) : Z * world :=
  (ARCHIVE_OK, with_options w flags).

(** Walk to the parent of the last component, making the directories
    that are missing on the way; answers the target's location. *)
Fixpoint walk_create (fs : gmap loc node) (cur : loc) (comps : list string)
    : option (gmap loc node * loc) :=
  match comps with
  | [] => Some (fs, cur)
  | c :: rest =>
      if is_directory fs cur then
        if String.eqb c "" || String.eqb c "." then walk_create fs cur rest
        else if String.eqb c ".." then walk_create fs (removelast cur) rest
        else
          match rest, fs !! (cur ++ [c]) with
          | _ :: _, None => walk_create (<[cur ++ [c] := NDir]> fs) (cur ++ [c]) rest
          | _, _ => walk_create fs (cur ++ [c]) rest
          end
      else None
  end.

Definition has_dotdot (p : string) : bool :=
  existsb (fun c => String.eqb c "..") (components p).

Definition is_absolute (p : string) : bool :=
  match p with String a _ => Ascii.eqb a "/" | EmptyString => false end.

(** The disk writer on a regular file or a directory entry; entries of
    other types fail in this model.  The two SECURE options are honoured
    when they are set. *)
Definition px_write_header (e : entry) (w : world) : Z * world :=
  let p := pathname e in
  if (Z.testbit (options w) 9 && has_dotdot p)
     || (Z.testbit (options w) 16 && is_absolute p)
  then (ARCHIVE_FAILED, with_writing w None)
  else
    let start := if is_absolute p then [] else cwd w in
    match walk_create (files w) start (components p) with
    | None => (ARCHIVE_FAILED, with_writing w None)
    | Some (fs, l) =>
        if filetype e =? AE_IFDIR then
          match fs !! l with
          | None => (ARCHIVE_OK, with_writing (with_files w (<[l := NDir]> fs)) None)
          | Some NDir => (ARCHIVE_OK, with_writing (with_files w fs) None)
          | Some _ => (ARCHIVE_FAILED, with_writing (with_files w fs) None)
          end
        else if filetype e =? AE_IFREG then
          match fs !! l with
          | Some NDir => (ARCHIVE_FAILED, with_writing (with_files w fs) None)
          | _ =>
              if bool_decide (l ∈ locked w)
              then (ARCHIVE_FAILED, with_writing (with_files w fs) None)
              else (ARCHIVE_OK,
                    with_writing (with_files w (<[l := NFile (Raw "")]> fs)) (Some l))
          end
        else (ARCHIVE_FAILED, with_writing w None)
    end.

(** [buff] laid over [s] at [offset] (holes filled with NUL). *)
Fixpoint pad_to (n : nat) (s : string) : string :=
  match n, s with
  | O, _ => s
  | S n', EmptyString => String zero (pad_to n' EmptyString)
  | S n', String a rest => String a (pad_to n' rest)
  end.

Definition write_at (s : string) (offset : nat) (buff : string) : string :=
  take_str offset (pad_to offset s) +:+ buff
  +:+ drop_str (offset + strlen buff) s.

Definition px_write_data_block (buff : string) (offset : Z) (w : world)
    : Z * world :=
  match writing w with
  | Some l =>
      match files w !! l with
      | Some (NFile (Raw s)) =>
          (ARCHIVE_OK,
           with_files w (<[l := NFile (Raw (write_at s (Z.to_nat offset) buff))]>
                           (files w)))
      | _ => (ARCHIVE_FAILED, w)
      end
  | None => (ARCHIVE_FAILED, w)
  end.

Definition px_finish_entry (w : world) : Z * world :=
  (ARCHIVE_OK, with_writing w None).

(** [w'] is [w] after deletions: nothing new, nothing else changed, and
    the locked nodes of [w] are all still there. *)
Definition shrinks (w w' : world) : Prop :=
  files w' ⊆ files w
  /\ cwd w' = cwd w /\ locked w' = locked w /\ registry w' = registry w
  /\ options w' = options w /\ writing w' = writing w
  /\ (forall k, k ∈ locked w -> files w' !! k = files w !! k).

(** [w'] differs from [w] below [R] only. *)
Definition same_outside (R : loc) (w w' : world) : Prop :=
  forall l, ~ R `prefix_of` l -> files w' !! l = files w !! l.

#[export] Instance posix_sys : Sys world := {
  is_dir := px_is_dir;
  is_file := px_is_file;
  s_rmdir := px_s_rmdir;
  unlink := px_unlink;
  chdir := px_chdir;
  get_current_dir_name := px_get_current_dir_name;
  singularity_registry_get := px_registry_get;
  archive_read_open_filename := px_open;
  archive_write_disk_set_options := px_set_options;
  archive_write_header := px_write_header;
  archive_write_data_block := px_write_data_block;
  archive_write_finish_entry := px_finish_entry
}.

End Posix.

(* ===================================================================== *)
(** ** Derived notions used in the statements *)
(* ===================================================================== *)

Module Paths.

(** The part of [s] before the pointer [token] into it. *)
Definition before (s token : string) : string :=
  take_str (strlen s - strlen token) s.

(** What [apply_whiteout] computes into [wh_path]: the marker with its
    first [.wh.] cut out. *)
Definition whiteout_path (wh_marker : string) : option string :=
  match strstr wh_marker ".wh." with
  | Some token => Some (before wh_marker token +:+ drop_str 4 token)
  | None => None
  end.

(** What [apply_opaque] computes into [opq_dir]: the marker up to its last
    [/]. *)
Definition opaque_dir (opq_marker : string) : option string :=
  match strrchr opq_marker "/" with
  | Some token => Some (before opq_marker token)
  | None => None
  end.

(** [rootfs_dir + "/" + p], the argument of the deletion calls. *)
Definition under (rootfs_dir p : string) : string :=
  rootfs_dir +:+ "/" +:+ p.

(** The relative path the scanner derives from a marker's pathname. *)
Definition derived (pathname : string) : option string :=
  if contains pathname "/.wh..wh..opq" then opaque_dir pathname
  else if contains pathname "/.wh." then whiteout_path pathname
  else None.

(** Reading [comps] from depth [depth] below a starting directory, does the
    path never step above that directory? *)
Fixpoint climbs_not (depth : nat) (comps : list string) : bool :=
  match comps with
  | [] => true
  | c :: rest =>
      if String.eqb c "" || String.eqb c "." then climbs_not depth rest
      else if String.eqb c ".." then
        match depth with
        | O => false
        | S d => climbs_not d rest
        end
      else climbs_not (S depth) rest
  end.

Definition stays_below (p : string) : bool :=
  climbs_not 0 (Posix.components p).

(** A layer all of whose markers derive a path that stays below the
    rootfs. *)
Definition markers_stay_below (hs : list header) : Prop :=
  forall h q, In h hs -> derived (pathname (h_entry h)) = Some q ->
              stays_below q = true.

End Paths.

Module Events.

Definition is_deletion (ev : event) : bool :=
  match ev with
  | EvRmdir _ _ | EvUnlink _ _ => true
  | _ => false
  end.

(** The calls only [extract_tar] makes. *)
Definition is_extraction (ev : event) : bool :=
  match ev with
  | EvOptions _ | EvChdir _ _ | EvWriteHeader _ _ | EvWriteData _ _ _
  | EvFinishEntry _ => true
  | _ => false
  end.

Definition is_message (ev : event) : bool :=
  match ev with
  | EvMessage _ _ _ => true
  | _ => false
  end.

(** Every event a computation can log satisfies [P], from any world. *)
Definition emits {world A} (P : event -> Prop) (m : @M world A) : Prop :=
  forall w, Forall P (trace_of (m w)).

(** [m] either returns a value satisfying [Q] or exits with status 255. *)
Definition returns {world A} (Q : A -> Prop) (m : @M world A) : Prop :=
  forall w, match result_of (m w) with
            | Ret a => Q a
            | Exit c => c = 255
            end.

(** The message of [main]'s branch for a failed extraction. *)
Definition extract_failed : event :=
  EvMessage ERROR "Error extracting tar file\n" [].

(** The whiteout phase makes none of the extractor's calls. *)
Definition scanner_event (ev : event) : Prop :=
  is_extraction ev = false /\ ev <> extract_failed.

(** The extraction phase deletes nothing. *)
Definition extractor_event (ev : event) : Prop :=
  is_deletion ev = false /\ ev <> extract_failed.

(** Headers are written for entries that pass the test of line 250 only. *)
Definition passes_filter (ev : event) : Prop :=
  forall e r, ev = EvWriteHeader e r -> DockerExtract.skipped e = false.

(** Is a header for entry [e] written in trace [t]? *)
Definition writes (e : entry) (t : list event) : Prop :=
  exists r, In (EvWriteHeader e r) t.

Definition special_type (e : entry) : bool :=
  (filetype e =? AE_IFSOCK) || (filetype e =? AE_IFCHR)
  || (filetype e =? AE_IFBLK) || (filetype e =? AE_IFIFO).

(** The handler the scanner's loop body selects for a pathname. *)
Definition handle {world} `{Sys world} (pathname rootfs_dir : string)
    : @M world Z :=
  if contains pathname "/.wh..wh..opq" then
    DockerExtract.apply_opaque pathname rootfs_dir
  else if contains pathname "/.wh." then
    DockerExtract.apply_whiteout pathname rootfs_dir
  else ret 0.

(** A deletion is made at the rootfs followed by [/] and the path derived
    from one of the layer's pathnames. *)
Definition deletes_derived (hs : list header) (rootfs_dir : string)
    (ev : event) : Prop :=
  forall path r, ev = EvRmdir path r \/ ev = EvUnlink path r ->
    exists h q, In h hs /\ Paths.derived (pathname (h_entry h)) = Some q
                /\ path = Paths.under rootfs_dir q.

(** The disk writer is handed the layer's own entries, and is given none of
    the three SECURE options. *)
Definition hands_over (hs : list header) (ev : event) : Prop :=
  (forall e r, ev = EvWriteHeader e r -> exists h, In h hs /\ h_entry h = e)
  /\ (forall flags, ev = EvOptions flags ->
        Z.land flags ARCHIVE_EXTRACT_SECURE_SYMLINKS = 0
        /\ Z.land flags ARCHIVE_EXTRACT_SECURE_NODOTDOT = 0
        /\ Z.land flags ARCHIVE_EXTRACT_SECURE_NOABSOLUTEPATHS = 0).

(** The message the scanner logs before it calls [apply_whiteout]. *)
Definition is_whiteout_marker_msg (ev : event) : bool :=
  match ev with
  | EvMessage DEBUG fmt _ => String.eqb fmt "Whiteout Marker %s\n"
  | _ => false
  end.

(** In trace [t], has every [unlink], and every [s_rmdir] made right after
    the message of a whiteout marker, answered 0?  (These are the deletions
    of [apply_whiteout]; an [s_rmdir] after the message of an opaque marker
    is [apply_opaque]'s.) *)
Fixpoint whiteout_deletions_ok (t : list event) : bool :=
  match t with
  | [] => true
  | ev :: rest =>
      match ev, rest with
      | EvUnlink _ r, _ => (r =? 0) && whiteout_deletions_ok rest
      | _, EvRmdir _ r :: _ =>
          (if is_whiteout_marker_msg ev then r =? 0 else true)
          && whiteout_deletions_ok rest
      | _, _ => whiteout_deletions_ok rest
      end
  end.

(** The message the scanner's loop logs for a pathname, if any. *)
Definition marker_msg (pathname : string) : list event :=
  if contains pathname "/.wh..wh..opq" then
    [EvMessage DEBUG "Opaque Marker %s\n" [pathname]]
  else if contains pathname "/.wh." then
    [EvMessage DEBUG "Whiteout Marker %s\n" [pathname]]
  else [].

(** The data blocks handed to the disk writer in a trace, in order. *)
Fixpoint data_written (t : list event) : list (string * Z) :=
  match t with
  | [] => []
  | EvWriteData buff offset _ :: rest => (buff, offset) :: data_written rest
  | _ :: rest => data_written rest
  end.

(** The entries whose header is handed to the disk writer in a trace, in
    order. *)
Fixpoint headers_written (t : list event) : list entry :=
  match t with
  | [] => []
  | EvWriteHeader e _ :: rest => e :: headers_written rest
  | _ :: rest => headers_written rest
  end.

(** What [archive_read_data_block] delivers for a block. *)
Definition block_data (b : block) : string * Z := (b_buff b, b_offset b).

(** What [extract_entry] does after the entry's data, lines 268-275. *)
Definition finish_log (r : Z) : list event :=
  EvFinishEntry r
  :: (if r <? ARCHIVE_OK
      then [EvMessage WARNING "Warning freeing archive entry: %s\n" []] else [])
  ++ (if r <? ARCHIVE_WARN
      then [EvMessage ERROR "Error freeing archive entry: %s\n" []] else []).

(** All headers of the layer are read with [ARCHIVE_OK]. *)
Definition well_read (hs : list header) : Prop :=
  Forall (fun h => h_status h = ARCHIVE_OK) hs.

End Events.

Import DockerExtract Paths Events.

(* ===================================================================== *)
(** ** Scenarios *)
(* ===================================================================== *)

Module Scenario.
Import Posix.

(** A regular-file entry with one data block, a directory entry, and an
    entry of any type without data. *)
Definition reg (p c : string) : header :=
  Header ARCHIVE_OK
         (Entry p AE_IFREG (Z.of_nat (strlen c)) [Block ARCHIVE_OK c 0]).
Definition dir (p : string) : header :=
  Header ARCHIVE_OK (Entry p AE_IFDIR 0 []).
Definition marker (p : string) : header :=
  Header ARCHIVE_OK (Entry p AE_IFREG 0 []).

(** A machine whose rootfs is [/r] and whose layer is [/t.tar], started in
    [/]. *)
Definition machine (fs : list (loc * node)) (lck : list loc)
    (layer : list header) : world :=
  World (list_to_map (([], NDir)
                      :: (["t.tar"], NFile (Tar (MkArchive layer ARCHIVE_OK)))
                      :: (["r"], NDir) :: fs))
        [] lck (Some "/r"%string) 0 None.

Definition argv : list string := ["docker-extract"; "/t.tar"]%string.

Definition run (w : world) : outcome Z * world * list event :=
  main 2 argv w.

(** The world after applying the layer once more. *)
Definition again (w : world) : world := world_of (run w).

(** A marker that climbs out of the rootfs, and an entry that does. *)
Definition w_traversal : world :=
  machine [(["etc"], NDir); (["etc"; "passwd"], NFile (Raw "root"))] []
          [marker "../etc/.wh.passwd"; reg "../evil" "x"].

(** A layer that deletes [d/f] and brings a new [d/f]. *)
Definition w_recreate : world :=
  machine [(["r"; "d"], NDir); (["r"; "d"; "f"], NFile (Raw "old"))] []
          [marker "d/.wh.f"; reg "d/f" "new"].

(** An entry whose base name only starts with [.wh..wh..opq]. *)
Definition w_opq_suffix : world :=
  machine [(["r"; "a"], NDir); (["r"; "a"; "keep"], NFile (Raw "k"))] []
          [marker "a/.wh..wh..opqx"].

(** A whiteout marker below a directory whose name contains [.wh.]. *)
Definition w_first_wh : world :=
  machine [(["r"; "a.wh.b"], NDir); (["r"; "a.wh.b"; "c"], NFile (Raw "old"));
           (["r"; "ab"], NDir); (["r"; "ab"; ".wh.c"], NFile (Raw "other"))] []
          [marker "a.wh.b/.wh.c"].

(** A regular file whose name contains [.wh.] after other characters. *)
Definition e_infix : entry :=
  Entry "foo.wh.bar" AE_IFREG 1 [Block ARCHIVE_OK "x" 0].
Definition w_infix : world := machine [] [] [Header ARCHIVE_OK e_infix].

(** An opaque marker on a directory that cannot be emptied, then a
    whiteout. *)
Definition w_locked : world :=
  machine [(["r"; "a"], NDir); (["r"; "a"; "x"], NFile (Raw "1"));
           (["r"; "b"], NDir); (["r"; "b"; "c"], NFile (Raw "2"))]
          [["r"; "a"; "x"]]
          [marker "a/.wh..wh..opq"; marker "b/.wh.c"].

(** A whiteout of a file that cannot be removed, then a new file. *)
Definition w_denied : world :=
  machine [(["r"; "b"], NDir); (["r"; "b"; "c"], NFile (Raw "2"))]
          [["r"; "b"; "c"]]
          [marker "b/.wh.c"; reg "new" "n"].

(** A directory entry [d] and a marker that reaches [x/f] through [d/..]. *)
Definition w_through_new_dir : world :=
  machine [(["r"; "x"], NDir); (["r"; "x"; "f"], NFile (Raw "old"))] []
          [dir "d"; marker "d/../x/.wh.f"].

(** The opaque scenario of the spec: the layer holds [etc/.wh..wh..opq]
    only. *)
Definition h_opaque : header := marker "etc/.wh..wh..opq".
Definition w_etc : world :=
  machine [(["r"; "etc"], NDir); (["r"; "etc"; "passwd"], NFile (Raw "p"));
           (["r"; "etc"; "shadow"], NFile (Raw "s"))] []
          [h_opaque].

(** The end-to-end scenario of the spec. *)
Definition e_marker : entry := Entry "usr/share/doc/test/.wh.oldfile" AE_IFREG 0 [].
Definition w_doc : world :=
  machine [(["r"; "usr"], NDir); (["r"; "usr"; "share"], NDir);
           (["r"; "usr"; "share"; "doc"], NDir);
           (["r"; "usr"; "share"; "doc"; "test"], NDir);
           (["r"; "usr"; "share"; "doc"; "test"; "oldfile"], NFile (Raw "o"))] []
          [Header ARCHIVE_OK e_marker; reg "usr/share/doc/test/newfile" "hello"].

(** A header that cannot be read, and one that is read with a warning. *)
Definition h_unreadable : header :=
  Header ARCHIVE_FATAL (Entry "" AE_IFREG 0 []).
Definition h_warned : header :=
  Header ARCHIVE_WARN (Entry "w" AE_IFREG 0 []).

(** A layer with a whiteout marker after a header read with a warning. *)
Definition w_warned : world :=
  machine [(["r"; "b"], NDir); (["r"; "b"; "c"], NFile (Raw "2"))] []
          [reg "a" "1"; h_warned; marker "b/.wh.c"].

(** A layer without markers. *)
Definition plain_layer : list header := [dir "d"; reg "d/f" "1"].

(** A machine whose layer cannot be released after it was read. *)
Definition w_free_fails : world :=
  World (list_to_map
           [([], NDir);
            (["t.tar"],
             NFile (Tar (MkArchive [marker "b/.wh.c"] ARCHIVE_FATAL)));
            (["r"], NDir); (["r"; "b"], NDir);
            (["r"; "b"; "c"], NFile (Raw "2"))])
        [] [] (Some "/r"%string) 0 None.

(** A symbolic link, which the writer of this model refuses, and a regular
    file whose only data block cannot be read. *)
Definition e_link : entry := Entry "lnk" AE_IFLNK 0 [].
Definition e_damaged : entry :=
  Entry "f" AE_IFREG 1 [Block ARCHIVE_FATAL "" 0].

End Scenario.

(* ===================================================================== *)
(** ** Facts about the C string functions *)
(* ===================================================================== *)

Section CStringFacts.

Lemma take_str_all (s : string) (n : nat) :
  (strlen s <= n)%nat -> take_str n s = s.
Proof.
  revert n. induction s as [|a s IH]; intros [|n] Hn; simpl in *; try easy; try lia.
  f_equal. apply IH. lia.
Qed.

Lemma strlen_app (a b : string) : strlen (a +:+ b) = (strlen a + strlen b)%nat.
Proof. induction a as [|c a IH]; simpl; [easy|]. unfold strlen in *. simpl. lia. Qed.

Lemma strlen_take_str (n : nat) (s : string) :
  strlen (take_str n s) = Nat.min n (strlen s).
Proof.
  revert s. induction n as [|n IH]; intros [|a s]; simpl; try easy.
  unfold strlen in *. simpl. rewrite IH. lia.
Qed.

Lemma strlen_drop_str (n : nat) (s : string) :
  strlen (drop_str n s) = (strlen s - n)%nat.
Proof.
  revert s. induction n as [|n IH]; intros [|a s]; simpl; easy.
Qed.

Lemma take_drop_str (n : nat) (s : string) :
  take_str n s +:+ drop_str n s = s.
Proof.
  revert s. induction n as [|n IH]; intros [|a s]; simpl; try easy.
  f_equal. apply IH.
Qed.

Lemma prefix_strlen (a b : string) :
  String.prefix a b = true -> (strlen a <= strlen b)%nat.
Proof.
  revert b. unfold strlen.
  induction a as [|c a IH]; intros [|d b]; simpl; intros Hp; try lia; try easy.
  destruct (ascii_dec c d); [|easy]. apply IH in Hp. lia.
Qed.

Lemma strstr_unfold (hay needle : string) :
  strstr hay needle =
  if String.prefix needle hay then Some hay
  else match hay with
       | EmptyString => None
       | String _ rest => strstr rest needle
       end.
Proof. destruct hay; reflexivity. Qed.

Lemma before_cons (a : ascii) (s token : string) :
  (strlen token <= strlen s)%nat ->
  before (String a s) token = String a (before s token).
Proof.
  unfold before, strlen. intros Hle. simpl String.length.
  replace (S (String.length s) - String.length token)%nat
    with (S (String.length s - String.length token)) by lia.
  reflexivity.
Qed.

Lemma before_self (s : string) : before s s = EmptyString.
Proof. unfold before. rewrite Nat.sub_diag. destruct s; reflexivity. Qed.

(** [strstr] answers a suffix of the haystack that starts with the needle;
    so [strlen(hay) - strlen(token)] is the exact offset of the match. *)
Lemma strstr_length (hay needle token : string) :
  strstr hay needle = Some token ->
  String.prefix needle token = true
  /\ (strlen token <= strlen hay)%nat
  /\ hay = before hay token +:+ token.
Proof.
  revert token. induction hay as [|a hay IH]; intros token;
    rewrite strstr_unfold; destruct (String.prefix needle _) eqn:Hp.
  - intros [= <-]. rewrite before_self. auto.
  - easy.
  - intros [= <-]. rewrite before_self. auto.
  - intros Hs. destruct (IH _ Hs) as (H1 & H2 & H3).
    split; [easy|]. split; [unfold strlen in *; simpl; lia|].
    rewrite before_cons by easy. simpl. f_equal. exact H3.
Qed.

(** The same for [strrchr]. *)
Lemma strrchr_length (s token : string) (c : ascii) :
  strrchr s c = Some token ->
  (exists rest, token = String c rest)
  /\ (strlen token <= strlen s)%nat
  /\ s = before s token +:+ token.
Proof.
  revert token. induction s as [|a s IH]; intros token; simpl; [easy|].
  destruct (strrchr s c) as [t|] eqn:Hr.
  - intros [= <-]. destruct (IH _ eq_refl) as (H1 & H2 & H3).
    split; [easy|]. split; [unfold strlen in *; simpl; lia|].
    rewrite before_cons by easy. simpl. f_equal. exact H3.
  - destruct (Ascii.eqb a c) eqn:Hac; [|easy]. intros [= <-].
    apply Ascii.eqb_eq in Hac. subst a. rewrite before_self.
    split; [eauto|]. split; [unfold strlen; simpl; lia|easy].
Qed.

(** The sizes [apply_whiteout] computes, in 64-bit arithmetic, are the
    numbers of the embedding. *)
Lemma whiteout_sizes_do_not_wrap (rootfs_dir wh_marker token : string) :
  strstr wh_marker ".wh." = Some token ->
  Z.of_nat (strlen rootfs_dir) + Z.of_nat (strlen wh_marker) + 2 < 2 ^ 64 ->
  let len := Z.of_nat (strlen wh_marker) in
  let token_pos := size_t (len - Z.of_nat (strlen token)) in
  let buff_len := size_t (size_t (len - Z.of_nat (strlen ".wh.")) + 1) in
  let wh_path_len := Z.of_nat (strlen wh_marker - 4) in
  token_pos = Z.of_nat (strlen wh_marker - strlen token)
  /\ buff_len = Z.of_nat (strlen wh_marker - strlen ".wh." + 1)
  /\ size_t (token_pos + 1) = Z.of_nat (strlen wh_marker - strlen token + 1)
  /\ size_t (buff_len - token_pos)
     = Z.of_nat (strlen wh_marker - strlen ".wh." + 1
                 - (strlen wh_marker - strlen token))
  /\ size_t (size_t (size_t (Z.of_nat (strlen rootfs_dir) + 1) + wh_path_len) + 1)
     = Z.of_nat (strlen rootfs_dir + 1 + (strlen wh_marker - 4) + 1).
Proof.
  intros Hs Hfit. destruct (strstr_length _ _ _ Hs) as (Hp & Hle & _).
  apply prefix_strlen in Hp. change (strlen ".wh.") with 4%nat in *.
  cbv zeta. unfold size_t.
  change (2 ^ 64) with 18446744073709551616 in *. change (Z.of_nat 4) with 4.
  set (l := Z.of_nat (strlen wh_marker)) in *.
  set (t := Z.of_nat (strlen token)) in *.
  set (r := Z.of_nat (strlen rootfs_dir)) in *.
  assert (4 <= t <= l) as Ht by (unfold t, l; lia).
  assert (0 <= r) as Hr by (unfold r; lia).
  assert (Z.of_nat (strlen wh_marker - 4) = l - 4) as Hp4 by (unfold l; lia).
  rewrite Hp4.
  rewrite (Z.mod_small (l - t)), (Z.mod_small (l - 4)), (Z.mod_small (l - 4 + 1)),
    (Z.mod_small (l - t + 1)), (Z.mod_small (l - 4 + 1 - (l - t))),
    (Z.mod_small (r + 1)), (Z.mod_small (r + 1 + (l - 4))),
    (Z.mod_small (r + 1 + (l - 4) + 1)) by lia.
  unfold l, t, r. repeat apply conj; lia.
Qed.

(** The same for [apply_opaque]. *)
Lemma opaque_sizes_do_not_wrap (rootfs_dir opq_marker token : string) :
  strrchr opq_marker "/" = Some token ->
  Z.of_nat (strlen rootfs_dir) + Z.of_nat (strlen opq_marker) + 2 < 2 ^ 64 ->
  let opq_dir_len := Z.of_nat (strlen opq_marker - strlen token) in
  size_t (Z.of_nat (strlen opq_marker) - Z.of_nat (strlen token) + 1)
  = Z.of_nat (strlen opq_marker - strlen token + 1)
  /\ size_t (size_t (size_t (Z.of_nat (strlen rootfs_dir) + 1) + opq_dir_len) + 1)
     = Z.of_nat (strlen rootfs_dir + 1 + (strlen opq_marker - strlen token) + 1).
Proof.
  intros Hs Hfit. destruct (strrchr_length _ _ _ Hs) as (_ & Hle & _).
  cbv zeta. unfold size_t.
  change (2 ^ 64) with 18446744073709551616 in *.
  set (l := Z.of_nat (strlen opq_marker)) in *.
  set (t := Z.of_nat (strlen token)) in *.
  set (r := Z.of_nat (strlen rootfs_dir)) in *.
  assert (0 <= t <= l) as Ht by (unfold t, l; lia).
  assert (0 <= r) as Hr by (unfold r; lia).
  assert (Z.of_nat (strlen opq_marker - strlen token) = l - t) as Hd
    by (unfold l, t; lia).
  rewrite Hd.
  rewrite (Z.mod_small (l - t + 1)), (Z.mod_small (r + 1)),
    (Z.mod_small (r + 1 + (l - t))), (Z.mod_small (r + 1 + (l - t) + 1)) by lia.
  unfold l, t, r. repeat apply conj; lia.
Qed.

End CStringFacts.
(* ===================================================================== *)
(** ** Facts about the process monad *)
(* ===================================================================== *)

Section MonadFacts.
Context {world : Type}.

Lemma emits_ret {A} (P : event -> Prop) (a : A) : emits P (@ret world A a).
Proof. intros w. constructor. Qed.

Lemma emits_exit {A} (P : event -> Prop) (c : Z) : emits P (@ABORT world A c).
Proof. intros w. constructor. Qed.

Lemma emits_ask {A} (P : event -> Prop) (f : world -> A) : emits P (ask f).
Proof. intros w. constructor. Qed.

Lemma emits_emit (P : event -> Prop) (ev : event) :
  P ev -> emits P (@emit world ev).
Proof. intros Hev w. repeat constructor. exact Hev. Qed.

Lemma emits_call (P : event -> Prop) (f : world -> Z * world) (ev : Z -> event) :
  (forall r, P (ev r)) -> emits P (call f ev).
Proof.
  intros Hev w. unfold call, trace_of. destruct (f w) as [r w'].
  repeat constructor. apply Hev.
Qed.

Lemma emits_bind {A B} (P : event -> Prop) (m : @M world A) (f : A -> M B) :
  emits P m -> (forall a, emits P (f a)) -> emits P (bind m f).
Proof.
  intros Hm Hf w. specialize (Hm w). unfold bind, trace_of in *.
  destruct (m w) as [[[a|c] w1] t1]; simpl in *; [|exact Hm].
  specialize (Hf a w1). destruct (f a w1) as [[o w2] t2]; simpl in *.
  apply Forall_app; split; assumption.
Qed.

Lemma emits_weaken {A} (P Q : event -> Prop) (m : @M world A) :
  (forall ev, P ev -> Q ev) -> emits P m -> emits Q m.
Proof. intros HPQ Hm w. eapply Forall_impl; [apply Hm|exact HPQ]. Qed.

(** The three projections of a [bind]. *)
Lemma trace_bind {A B} (m : @M world A) (f : A -> M B) (w : world) :
  trace_of (bind m f w) =
  trace_of (m w) ++
  match result_of (m w) with
  | Ret a => trace_of (f a (world_of (m w)))
  | Exit _ => []
  end.
Proof.
  unfold bind, trace_of, result_of, world_of.
  destruct (m w) as [[[a|c] w1] t1]; simpl.
  - destruct (f a w1) as [[o w2] t2]; reflexivity.
  - symmetry. apply app_nil_r.
Qed.

Lemma result_bind {A B} (m : @M world A) (f : A -> M B) (w : world) :
  result_of (bind m f w) =
  match result_of (m w) with
  | Ret a => result_of (f a (world_of (m w)))
  | Exit c => Exit c
  end.
Proof.
  unfold bind, trace_of, result_of, world_of.
  destruct (m w) as [[[a|c] w1] t1]; simpl; [|reflexivity].
  destruct (f a w1) as [[o w2] t2]; reflexivity.
Qed.

Lemma world_bind {A B} (m : @M world A) (f : A -> M B) (w : world) :
  world_of (bind m f w) =
  match result_of (m w) with
  | Ret a => world_of (f a (world_of (m w)))
  | Exit c => world_of (m w)
  end.
Proof.
  unfold bind, trace_of, result_of, world_of.
  destruct (m w) as [[[a|c] w1] t1]; simpl; [|reflexivity].
  destruct (f a w1) as [[o w2] t2]; reflexivity.
Qed.

Lemma run_eta {A} (x : outcome A * world * list event) :
  x = (result_of x, world_of x, trace_of x).
Proof. destruct x as [[o w] t]. reflexivity. Qed.

End MonadFacts.

(** Discharges [emits P m] by walking through [m]. *)
Ltac emits_walk :=
  repeat first
    [ match goal with
      | IH : forall _, emits _ _ |- emits _ _ => apply IH
      | IH : forall _ _, emits _ _ |- emits _ _ => apply IH
      | IH : emits _ ?m |- emits _ ?m => exact IH
      end
    | apply emits_ret | apply emits_exit | apply emits_ask
    | apply emits_emit | apply emits_call; intros ?
    | apply emits_bind; [|intros ?]
    | match goal with
      | |- emits _ (if ?b then _ else _) => destruct b
      | |- emits _ (match ?x with _ => _ end) => destruct x
      end ].

(* ===================================================================== *)
(** ** The two marker handlers, with their buffers computed *)
(* ===================================================================== *)

Section Buffers.

Lemma snprintf_s_exact (n : nat) (s : string) :
  (strlen s < n)%nat -> snprintf_s n s = s.
Proof. intros Hn. apply take_str_all. lia. Qed.

Lemma snprintf_s_before (s token : string) :
  snprintf_s (strlen s - strlen token + 1) s = before s token.
Proof. unfold snprintf_s, before. f_equal. lia. Qed.

Lemma snprintf_path_exact (a b : string) :
  snprintf_path (strlen a + 1 + strlen b + 1) a b = under a b.
Proof.
  unfold snprintf_path, under. apply take_str_all.
  rewrite !strlen_app. unfold strlen. simpl. lia.
Qed.

Lemma strlen_before (s token : string) :
  strlen (before s token) = (strlen s - strlen token)%nat.
Proof. unfold before. rewrite strlen_take_str. lia. Qed.

(** The buffer arithmetic of [apply_whiteout] cuts nothing short: [wh_path]
    is the marker without its first [.wh.]. *)
Lemma wh_path_exact (wh_marker token : string) :
  strstr wh_marker ".wh." = Some token ->
  let token_pos := (strlen wh_marker - strlen token)%nat in
  let buff_len := (strlen wh_marker - strlen ".wh." + 1)%nat in
  snprintf_ss buff_len
    (snprintf_s (token_pos + 1) wh_marker)
    (snprintf_s (buff_len - token_pos) (drop_str 4 token))
  = before wh_marker token +:+ drop_str 4 token.
Proof.
  intros Hs. destruct (strstr_length _ _ _ Hs) as (Hp & Hle & _).
  apply prefix_strlen in Hp. change (strlen ".wh.") with 4%nat in *.
  cbv zeta. rewrite snprintf_s_before.
  rewrite snprintf_s_exact by (rewrite strlen_drop_str; lia).
  unfold snprintf_ss. apply take_str_all.
  rewrite strlen_app, strlen_before, strlen_drop_str. lia.
Qed.

End Buffers.

Section Handlers.
Context {world : Type} `{Sys world}.

Lemma apply_whiteout_eq (wh_marker rootfs_dir : string) (w : world) :
  apply_whiteout wh_marker rootfs_dir w =
  match whiteout_path wh_marker with
  | None =>
      (Exit 255, w,
       [EvMessage ERROR "Error getting filename for whiteout marker\n" []])
  | Some q =>
      let p := under rootfs_dir q in
      if is_dir p w =? 0 then
        (Ret (fst (s_rmdir p w)), snd (s_rmdir p w),
         [EvRmdir p (fst (s_rmdir p w))])
      else if is_file p w =? 0 then
        (Ret (fst (unlink p w)), snd (unlink p w),
         [EvMessage DEBUG "Removing whiteout-ed file: %s\n" [p];
          EvUnlink p (fst (unlink p w))])
      else (Ret 0, w, [])
  end.
Proof.
  unfold apply_whiteout, whiteout_path.
  destruct (strstr wh_marker ".wh.") as [token|] eqn:Hs; [|reflexivity].
  pose proof (wh_path_exact _ _ Hs) as Hq. cbv zeta in Hq. cbv zeta.
  rewrite Hq, snprintf_path_exact.
  unfold bind, ask, call, singularity_message, emit, ret.
  destruct (is_dir _ w =? 0).
  - destruct (s_rmdir _ w); reflexivity.
  - destruct (is_file _ w =? 0); [|reflexivity].
    destruct (unlink _ w); reflexivity.
Qed.

Lemma apply_opaque_eq (opq_marker rootfs_dir : string) (w : world) :
  apply_opaque opq_marker rootfs_dir w =
  match opaque_dir opq_marker with
  | None =>
      (Exit 255, w,
       [EvMessage ERROR "Error getting dirname for opaque marker\n" []])
  | Some q =>
      let p := under rootfs_dir q in
      if is_dir p w =? 0 then
        (Ret 0, snd (s_rmdir p w), [EvRmdir p (fst (s_rmdir p w))])
      else (Ret 0, w, [])
  end.
Proof.
  unfold apply_opaque, opaque_dir.
  destruct (strrchr opq_marker "/") as [token|] eqn:Hs; [|reflexivity].
  cbv zeta. rewrite snprintf_s_before.
  rewrite snprintf_path_exact.
  unfold bind, ask, call, singularity_message, emit, ret.
  destruct (is_dir _ w =? 0); [|reflexivity].
  destruct (s_rmdir _ w); reflexivity.
Qed.

End Handlers.
(* ===================================================================== *)
(** ** How the functions end, and what they log *)
(* ===================================================================== *)

Section Endings.
Context {world : Type}.

Lemma returns_ret {A} (Q : A -> Prop) (a : A) : Q a -> returns Q (@ret world A a).
Proof. intros Ha w. exact Ha. Qed.

Lemma returns_abort {A} (Q : A -> Prop) : returns Q (@ABORT world A 255).
Proof. intros w. reflexivity. Qed.

Lemma returns_any {A} (m : @M world A) :
  (forall w, exists a, result_of (m w) = Ret a) -> returns (fun _ => True) m.
Proof. intros Hm w. destruct (Hm w) as [a ->]. exact I. Qed.

Lemma returns_bind {A B} (Q : B -> Prop) (m : @M world A) (f : A -> M B) :
  returns (fun _ => True) m -> (forall a, returns Q (f a)) ->
  returns Q (bind m f).
Proof.
  intros Hm Hf w. rewrite result_bind. specialize (Hm w).
  destruct (result_of (m w)) as [a|c]; [apply Hf|exact Hm].
Qed.

Lemma returns_ask {A} (f : world -> A) : returns (fun _ => True) (ask f).
Proof. intros w. exact I. Qed.

Lemma returns_emit (ev : event) : returns (fun _ => True) (@emit world ev).
Proof. intros w. exact I. Qed.

Lemma returns_call (f : world -> Z * world) (ev : Z -> event) :
  returns (fun _ => True) (call f ev).
Proof. intros w. unfold call, result_of. destruct (f w). exact I. Qed.

End Endings.

Ltac returns_walk :=
  repeat first
    [ match goal with
      | IH : forall _, returns _ _ |- returns _ _ => apply IH
      | IH : forall _ _, returns _ _ |- returns _ _ => apply IH
      | IH : returns _ ?m |- returns _ ?m => exact IH
      end
    | apply returns_abort | apply returns_ask | apply returns_emit
    | apply returns_call
    | apply returns_ret; first [exact I | reflexivity]
    | apply returns_bind; [|intros ?]
    | match goal with
      | |- returns _ (if ?b then _ else _) => destruct b
      | |- returns _ (match ?x with _ => _ end) => destruct x
      end ].

Section ProgramFacts.
Context {world : Type} `{Sys world}.

Lemma copy_data_returns (bs : list block) :
  returns (fun _ => True) (copy_data bs).
Proof. induction bs as [|b bs IH]; cbn [copy_data]; returns_walk. Qed.

Lemma extract_entry_returns (e : entry) :
  returns (fun _ => True) (extract_entry e).
Proof. unfold extract_entry. pose proof copy_data_returns. returns_walk. Qed.

Lemma extract_loop_returns (hs : list header) :
  returns (fun _ => True) (extract_loop hs).
Proof.
  pose proof extract_entry_returns.
  induction hs as [|h hs IH]; cbn [extract_loop]; returns_walk.
Qed.

(** [extract_tar] never returns anything but 0. *)
Lemma extract_tar_returns (tarfile rootfs_dir : string) :
  returns (fun r => r = 0) (extract_tar tarfile rootfs_dir).
Proof. unfold extract_tar. pose proof extract_loop_returns. returns_walk. Qed.

(** [apply_opaque] never reports an error. *)
Lemma apply_opaque_returns (opq_marker rootfs_dir : string) :
  returns (fun r => r = 0) (apply_opaque opq_marker rootfs_dir).
Proof.
  intros w. rewrite apply_opaque_eq.
  destruct (opaque_dir opq_marker); [|reflexivity].
  cbv zeta. destruct (is_dir _ w =? 0); reflexivity.
Qed.

End ProgramFacts.
(* ===================================================================== *)
(** ** What each phase can log *)
(* ===================================================================== *)

Section Logs.
Context {world : Type} `{Sys world}.

Lemma emits_bind_returns {A B} (P : event -> Prop) (Q : A -> Prop)
    (m : @M world A) (f : A -> M B) :
  emits P m -> returns Q m -> (forall a, Q a -> emits P (f a)) ->
  emits P (bind m f).
Proof.
  intros Hm Hr Hf w. specialize (Hm w). specialize (Hr w).
  unfold bind, trace_of, result_of in *.
  destruct (m w) as [[[a|c] w1] t1]; simpl in *; [|exact Hm].
  specialize (Hf a Hr w1). destruct (f a w1) as [[o w2] t2]; simpl in *.
  apply Forall_app; split; assumption.
Qed.

Lemma apply_whiteout_log (wh_marker rootfs_dir : string) :
  emits scanner_event (apply_whiteout wh_marker rootfs_dir).
Proof. unfold apply_whiteout. emits_walk; split; easy. Qed.

Lemma apply_opaque_log (opq_marker rootfs_dir : string) :
  emits scanner_event (apply_opaque opq_marker rootfs_dir).
Proof. unfold apply_opaque. emits_walk; split; easy. Qed.

Lemma apply_whiteouts_loop_log (hs : list header) (rootfs_dir : string) :
  emits scanner_event (apply_whiteouts_loop hs rootfs_dir).
Proof.
  pose proof apply_whiteout_log. pose proof apply_opaque_log.
  induction hs as [|h hs IH]; cbn [apply_whiteouts_loop]; emits_walk;
    split; easy.
Qed.

Lemma apply_whiteouts_log (tarfile rootfs_dir : string) :
  emits scanner_event (apply_whiteouts tarfile rootfs_dir).
Proof.
  pose proof apply_whiteouts_loop_log.
  unfold apply_whiteouts. emits_walk; split; easy.
Qed.

Lemma copy_data_log (bs : list block) : emits extractor_event (copy_data bs).
Proof.
  induction bs as [|b bs IH]; cbn [copy_data]; emits_walk; split; easy.
Qed.

Lemma extract_entry_log (e : entry) : emits extractor_event (extract_entry e).
Proof.
  pose proof copy_data_log. unfold extract_entry. emits_walk; split; easy.
Qed.

Lemma extract_loop_log (hs : list header) :
  emits extractor_event (extract_loop hs).
Proof.
  pose proof extract_entry_log.
  induction hs as [|h hs IH]; cbn [extract_loop]; emits_walk; split; easy.
Qed.

Lemma extract_tar_log (tarfile rootfs_dir : string) :
  emits extractor_event (extract_tar tarfile rootfs_dir).
Proof.
  pose proof extract_loop_log. unfold extract_tar. emits_walk; split; easy.
Qed.

Lemma copy_data_filter (bs : list block) : emits passes_filter (copy_data bs).
Proof.
  induction bs as [|b bs IH]; cbn [copy_data]; emits_walk; intros e' r' [=].
Qed.

Lemma extract_entry_filter (e : entry) :
  skipped e = false -> emits passes_filter (extract_entry e).
Proof.
  intros He. pose proof copy_data_filter.
  unfold extract_entry. emits_walk; intros e' r' [=]; congruence.
Qed.

Lemma extract_loop_filter (hs : list header) :
  emits passes_filter (extract_loop hs).
Proof.
  induction hs as [|h hs IH]; cbn [extract_loop]; [emits_walk|].
  destruct (h_status h =? ARCHIVE_EOF); [emits_walk|].
  apply emits_bind; [emits_walk; intros e' r' [=]|intros _].
  apply emits_bind; [emits_walk; intros e' r' [=]|intros _].
  destruct (skipped (h_entry h)) eqn:Hs; [exact IH|].
  apply emits_bind; [apply extract_entry_filter, Hs|intros _; exact IH].
Qed.

Lemma extract_tar_filter (tarfile rootfs_dir : string) :
  emits passes_filter (extract_tar tarfile rootfs_dir).
Proof.
  pose proof extract_loop_filter.
  unfold extract_tar. emits_walk; intros e' r' [=].
Qed.

End Logs.
(* ===================================================================== *)
(** ** The orchestrator *)
(* ===================================================================== *)

Section Orchestrator.
Context {world : Type} `{Sys world}.

Lemma main_never_reports_extraction_failure (argc : Z) (argv : list string) :
  emits (fun ev => ev <> extract_failed) (main argc argv).
Proof.
  assert (forall t r, emits (fun ev => ev <> extract_failed)
                            (apply_whiteouts t r)) as Hw.
  { intros t r. eapply emits_weaken; [|apply apply_whiteouts_log].
    intros ev [_ Hne]. exact Hne. }
  assert (forall t r, emits (fun ev => ev <> extract_failed)
                            (extract_tar t r)) as He.
  { intros t r. eapply emits_weaken; [|apply extract_tar_log].
    intros ev [_ Hne]. exact Hne. }
  unfold main.
  apply emits_bind; [emits_walk|intros rootfs].
  destruct (negb (argc =? 2)); [emits_walk; easy|].
  destruct rootfs as [rootfs_dir|]; [|emits_walk; easy].
  apply emits_bind; [emits_walk|intros d].
  destruct (d <? 0); [emits_walk; easy|].
  apply emits_bind; [emits_walk|intros f].
  destruct (f <? 0); [emits_walk; easy|].
  apply emits_bind; [emits_walk; easy|intros _].
  apply emits_bind; [apply Hw|intros retval].
  destruct (negb (retval =? 0)); [emits_walk; easy|].
  apply emits_bind; [emits_walk; easy|intros _].
  eapply emits_bind_returns;
    [apply He|apply extract_tar_returns|intros a ->].
  simpl. emits_walk.
Qed.

(** C10: [extract_tar] returns 0 whenever it returns (every fatal condition
    inside it ends the process with status 255), so [main] never takes the
    branch that reports "Error extracting tar file". *)
Theorem extract_tar_failure_branch_unreachable
    (argc : Z) (argv : list string) (tarfile rootfs_dir : string) (w : world) :
  match result_of (extract_tar tarfile rootfs_dir w) with
  | Ret r => r = 0
  | Exit c => c = 255
  end
  /\ ~ In extract_failed (trace_of (main argc argv w)).
Proof.
  split; [apply extract_tar_returns|].
  pose proof (main_never_reports_extraction_failure argc argv w) as Hm.
  rewrite Forall_forall in Hm. intros Hin.
  apply list_elem_of_In in Hin. exact (Hm _ Hin eq_refl).
Qed.

(** C5, amended: the extractor writes no header for an entry whose pathname
    contains [/.wh.] or whose type is socket, character device, block
    device or FIFO. *)
Theorem extractor_skips_markers_and_special_files
    (tarfile rootfs_dir : string) (w : world) (e : entry) :
  contains (pathname e) "/.wh." = true \/ special_type e = true ->
  ~ writes e (trace_of (extract_tar tarfile rootfs_dir w)).
Proof.
  intros He [r Hin].
  pose proof (extract_tar_filter tarfile rootfs_dir w) as Hf.
  rewrite Forall_forall in Hf. apply list_elem_of_In in Hin.
  specialize (Hf _ Hin e r eq_refl).
  unfold skipped, special_type in *. 
  destruct He as [He|He]; rewrite ?He in Hf; simpl in Hf; [easy|].
  repeat (apply orb_false_elim in Hf; destruct Hf as [Hf ?]).
  repeat (apply orb_prop in He; destruct He as [He|He]); congruence.
Qed.

End Orchestrator.
Section Orchestrator2.
Context {world : Type} `{Sys world}.

Lemma bind_ask {A B} (f : world -> A) (k : A -> @M world B) (w : world) :
  bind (ask f) k w = k (f w) w.
Proof. unfold bind, ask. destruct (k (f w) w) as [[o w2] t2]. reflexivity. Qed.

(** The four checks of [main]. *)
Lemma main_checks (argc : Z) (argv : list string) (w : world) :
  (result_of (main argc argv w) = Exit 255
   /\ world_of (main argc argv w) = w
   /\ Forall (fun ev => is_message ev = true) (trace_of (main argc argv w))
   /\ (argc <> 2
       \/ match singularity_registry_get "ROOTFS" w with
          | None => True
          | Some rootfs_dir =>
              is_dir rootfs_dir w < 0 \/ is_file (nth 1 argv ""%string) w < 0
          end))
  \/ (exists rootfs_dir,
        argc = 2
        /\ singularity_registry_get "ROOTFS" w = Some rootfs_dir
        /\ 0 <= is_dir rootfs_dir w
        /\ 0 <= is_file (nth 1 argv ""%string) w).
Proof.
  unfold main. rewrite bind_ask.
  destruct (argc =? 2) eqn:Hargc; cbn [negb].
  2:{ apply Z.eqb_neq in Hargc. left. repeat apply conj; try reflexivity; auto.
      repeat constructor. }
  apply Z.eqb_eq in Hargc.
  destruct (singularity_registry_get "ROOTFS" w) as [rootfs_dir|].
  2:{ left. repeat apply conj; try reflexivity; auto. repeat constructor. }
  rewrite bind_ask.
  destruct (is_dir rootfs_dir w <? 0) eqn:Hd.
  { apply Z.ltb_lt in Hd. left. repeat apply conj; try reflexivity; auto.
    repeat constructor. }
  rewrite bind_ask.
  destruct (is_file (nth 1 argv ""%string) w <? 0) eqn:Hf.
  { apply Z.ltb_lt in Hf. left. repeat apply conj; try reflexivity; auto.
    repeat constructor. }
  apply Z.ltb_ge in Hd, Hf. right. exists rootfs_dir. auto.
Qed.

(** C8: when [is_file] rejects the tar path (it does not exist), [main]
    exits with status 255, leaves the world as it was and logs nothing but
    a message: no deletion, no write, not even an open. *)
Theorem missing_tar_is_fatal_without_mutation
    (argc : Z) (argv : list string) (w : world) :
  is_file (nth 1 argv ""%string) w < 0 ->
  result_of (main argc argv w) = Exit 255
  /\ world_of (main argc argv w) = w
  /\ Forall (fun ev => is_message ev = true) (trace_of (main argc argv w)).
Proof.
  intros Hf.
  destruct (main_checks argc argv w)
    as [(Hr & Hw & Ht & _)|(rootfs_dir & _ & _ & _ & Hok)]; [auto|lia].
Qed.

(** What [main] does once its four checks have passed. *)
Lemma main_after_checks (argc : Z) (argv : list string) (w : world)
    (rootfs_dir : string) :
  argc = 2 ->
  singularity_registry_get "ROOTFS" w = Some rootfs_dir ->
  0 <= is_dir rootfs_dir w ->
  0 <= is_file (nth 1 argv ""%string) w ->
  main argc argv w =
  bind (singularity_message DEBUG "Applying whiteouts for tar file %s\n"
                            [nth 1 argv ""%string])
       (fun _ =>
          retval <- apply_whiteouts (nth 1 argv ""%string) rootfs_dir ;;
          if negb (retval =? 0) then
            singularity_message ERROR "Error applying layer whiteouts\n" [] ;;;
            ABORT 255
          else
            singularity_message DEBUG "Extracting docker tar file %s\n"
                                [nth 1 argv ""%string] ;;;
            retval <- extract_tar (nth 1 argv ""%string) rootfs_dir ;;
            if negb (retval =? 0) then
              singularity_message ERROR "Error extracting tar file\n" [] ;;;
              ABORT 255
            else ret retval) w.
Proof.
  intros -> Hreg Hd Hf. apply Z.ltb_ge in Hd, Hf.
  unfold main. rewrite bind_ask, Hreg. cbn [negb Z.eqb Pos.eqb].
  rewrite bind_ask, Hd, bind_ask, Hf. reflexivity.
Qed.

(** What follows a successful whiteout phase deletes nothing. *)
Lemma extraction_phase_log (tarfile rootfs_dir : string) :
  emits (fun ev => is_deletion ev = false)
    (singularity_message DEBUG "Extracting docker tar file %s\n" [tarfile] ;;;
     retval <- extract_tar tarfile rootfs_dir ;;
     if negb (retval =? 0) then
       singularity_message ERROR "Error extracting tar file\n" [] ;;;
       ABORT 255
     else ret retval).
Proof.
  assert (forall t r, emits (fun ev => is_deletion ev = false)
                            (extract_tar t r)) as He.
  { intros t r. eapply emits_weaken; [|apply extract_tar_log].
    intros ev [Hd _]. exact Hd. }
  emits_walk; reflexivity.
Qed.

Lemma apply_whiteouts_loop_returns (hs : list header) (rootfs_dir : string) :
  returns (fun _ => True) (apply_whiteouts_loop hs rootfs_dir).
Proof.
  assert (forall p, returns (fun _ => True) (apply_whiteout p rootfs_dir)) as Hw
    by (intros p; unfold apply_whiteout; returns_walk).
  assert (forall p, returns (fun _ => True) (apply_opaque p rootfs_dir)) as Ho
    by (intros p; unfold apply_opaque; returns_walk).
  induction hs as [|h hs IH]; cbn [apply_whiteouts_loop]; returns_walk.
Qed.

(** [apply_whiteouts] returns, or exits with status 255. *)
Lemma apply_whiteouts_returns (tarfile rootfs_dir : string) :
  returns (fun _ => True) (apply_whiteouts tarfile rootfs_dir).
Proof.
  pose proof apply_whiteouts_loop_returns.
  unfold apply_whiteouts. returns_walk.
Qed.


End Orchestrator2.
(* ===================================================================== *)
(** ** The program on concrete layers *)
(* ===================================================================== *)

Section Concrete.
Import Posix Scenario.


(** C2, as stated, fails: the layer holds the marker [d/.wh.f] and the
    rootfs the regular file [d/f]; the whiteout phase removes the file, and
    the extraction phase creates it again from the layer's own [d/f]. *)
Lemma whited_out_file_recreated_by_extraction :
  In (marker "d/.wh.f") (headers (snd (px_open "/t.tar" w_recreate)))
  /\ px_is_file "/r/d/f" w_recreate = 0
  /\ px_is_file "/r/d/f" (world_of (apply_whiteouts "/t.tar" "/r" w_recreate)) = -1
  /\ px_is_file "/r/d/f" (again w_recreate) = 0
  /\ files (again w_recreate) !! ["r"; "d"; "f"] = Some (NFile (Raw "new")).
Proof.
  repeat apply conj; try (vm_compute; reflexivity). vm_compute. tauto.
Qed.


(** C4 on the marker [a.wh.b/.wh.c]: the first [.wh.] is cut, not the one
    of the base name; [/r/ab/.wh.c] is unlinked and [/r/a.wh.b/c], the file
    the marker names, stays. *)
Lemma first_wh_occurrence_is_cut :
  whiteout_path "a.wh.b/.wh.c" = Some "ab/.wh.c"%string
  /\ In (EvUnlink "/r/ab/.wh.c" 0) (trace_of (run w_first_wh))
  /\ files (again w_first_wh) !! ["r"; "ab"; ".wh.c"] = None
  /\ files (again w_first_wh) !! ["r"; "a.wh.b"; "c"] = Some (NFile (Raw "old"))
  /\ result_of (run w_first_wh) = Ret 0.
Proof.
  repeat apply conj; try (vm_compute; reflexivity). vm_compute. tauto.
Qed.

(** C5, as stated, fails: the pathname [foo.wh.bar] contains [.wh.] and the
    entry is extracted. *)
Lemma infix_wh_entry_is_extracted :
  contains (pathname e_infix) ".wh." = true
  /\ writes e_infix (trace_of (run w_infix))
  /\ files (again w_infix) !! ["r"; "foo.wh.bar"] = Some (NFile (Raw "x")).
Proof.
  repeat apply conj; try (vm_compute; reflexivity). exists 0. vm_compute. tauto.
Qed.

(** C6 on an opaque marker whose directory cannot be removed: [s_rmdir]
    answers -1, the scan goes on to the next marker, and [apply_whiteouts]
    returns 0. *)
Lemma opaque_failure_does_not_stop_scan :
  trace_of (apply_whiteouts "/t.tar" "/r" w_locked) =
    [EvOpen "/t.tar" 0;
     EvMessage DEBUG "Opaque Marker %s\n" ["a/.wh..wh..opq"%string];
     EvRmdir "/r/a" (-1);
     EvMessage DEBUG "Whiteout Marker %s\n" ["b/.wh.c"%string];
     EvMessage DEBUG "Removing whiteout-ed file: %s\n" ["/r/b/c"%string];
     EvUnlink "/r/b/c" 0]
  /\ result_of (apply_whiteouts "/t.tar" "/r" w_locked) = Ret 0
  /\ result_of (run w_locked) = Ret 0.
Proof. repeat apply conj; vm_compute; reflexivity. Qed.


Lemma extractor_skips_witness :
  ~ writes e_marker (trace_of (extract_tar "/t.tar" "/r" w_doc)).
Proof.
  apply (extractor_skips_markers_and_special_files "/t.tar" "/r" w_doc e_marker).
  left. reflexivity.
Defined.

Lemma missing_tar_witness :
  result_of (main 2 ["docker-extract"; "/missing.tar"]%string w_doc) = Exit 255
  /\ world_of (main 2 ["docker-extract"; "/missing.tar"]%string w_doc) = w_doc.
Proof.
  destruct (missing_tar_is_fatal_without_mutation
              2 ["docker-extract"; "/missing.tar"]%string w_doc) as (Hr & Hw & _).
  - vm_compute. reflexivity.
  - split; assumption.
Defined.

End Concrete.
(* ===================================================================== *)
(** ** One step of the scanner *)
(* ===================================================================== *)

Section ScannerStep.
Context {world : Type} `{Sys world}.

Lemma strrchr_app (a b : string) (c : ascii) :
  strrchr (a +:+ String c b) c <> None.
Proof.
  induction a as [|x a IH]; simpl.
  - destruct (strrchr b c); [easy|]. rewrite Ascii.eqb_refl. easy.
  - destruct (strrchr (a +:+ String c b) c); easy.
Qed.

(** A pathname that contains one of the two patterns has a [/]. *)
Lemma contains_slash (p pat : string) :
  contains p (String "/" pat) = true -> exists q, opaque_dir p = Some q.
Proof.
  unfold contains, opaque_dir.
  destruct (strstr p (String "/" pat)) as [token|] eqn:Hs; [intros _|easy].
  destruct (strstr_length _ _ _ Hs) as (Hp & _ & Hsplit).
  destruct token as [|c token]; cbn [String.prefix] in Hp; [discriminate Hp|].
  destruct (ascii_dec "/" c) as [<-|]; [|discriminate Hp].
  pose proof (strrchr_app (before p (String "/" token)) token "/") as Hne.
  rewrite <- Hsplit in Hne.
  destruct (strrchr p "/"); [eauto|easy].
Qed.


End ScannerStep.

Section ScannerStepWitness.
Import Posix Scenario.


End ScannerStepWitness.
(* ===================================================================== *)
(** ** Facts about the file system *)
(* ===================================================================== *)

Section PosixFacts.
Import Posix.

Lemma shrinks_refl (w : world) : shrinks w w.
Proof. unfold shrinks. auto 10. Qed.

Lemma shrinks_trans (w1 w2 w3 : world) :
  shrinks w1 w2 -> shrinks w2 w3 -> shrinks w1 w3.
Proof.
  intros (Hf & Hc & Hl & Hr & Ho & Hw & Hk) (Hf' & Hc' & Hl' & Hr' & Ho' & Hw' & Hk').
  unfold shrinks. repeat apply conj; try congruence.
  - etrans; eassumption.
  - intros k Hin. rewrite Hk', Hk; [reflexivity|exact Hin|]. rewrite Hl. exact Hin.
Qed.

Lemma is_directory_mono (fs fs' : gmap loc node) (l : loc) :
  fs' ⊆ fs -> is_directory fs' l = true -> is_directory fs l = true.
Proof.
  unfold is_directory. intros Hsub.
  destruct (fs' !! l) as [n|] eqn:Hl; [|discriminate].
  rewrite (lookup_weaken _ _ _ _ Hl Hsub). trivial.
Qed.

(** A path that resolves after deletions resolved to the same place
    before. *)
Lemma walk_mono (fs fs' : gmap loc node) (comps : list string) (cur l : loc) :
  fs' ⊆ fs -> walk fs' cur comps = Some l -> walk fs cur comps = Some l.
Proof.
  intros Hsub. revert cur. induction comps as [|c comps IH]; intros cur;
    cbn [walk]; [trivial|].
  destruct (is_directory fs' cur) eqn:Hd; [|discriminate].
  rewrite (is_directory_mono _ _ _ Hsub Hd).
  destruct (String.eqb c "" || String.eqb c "."); [apply IH|].
  destruct (String.eqb c ".."); apply IH.
Qed.

Lemma resolve_mono (w w' : world) (p : string) (l : loc) :
  shrinks w w' -> resolve w' p = Some l -> resolve w p = Some l.
Proof.
  intros (Hf & Hc & _). unfold resolve. destruct p as [|a p]; [trivial|].
  rewrite Hc. destruct (Ascii.eqb a "/"); apply walk_mono, Hf.
Qed.

Lemma stat_mono (w w' : world) (p : string) (n : node) :
  shrinks w w' -> stat w' p = Some n -> stat w p = Some n.
Proof.
  intros Hs. unfold stat. destruct (resolve w' p) as [l|] eqn:Hr; [|discriminate].
  rewrite (resolve_mono _ _ _ _ Hs Hr). intros Hl.
  destruct Hs as (Hf & _). exact (lookup_weaken _ _ _ _ Hl Hf).
Qed.

Lemma remove_tree_lookup (l k : loc) (fs : gmap loc node) :
  remove_tree l fs !! k = if decide (l `prefix_of` k) then None else fs !! k.
Proof.
  unfold remove_tree. destruct (decide (l `prefix_of` k)) as [Hp|Hp].
  - apply map_lookup_filter_None. right. intros n _ Hn. exact (Hn Hp).
  - destruct (fs !! k) as [n|] eqn:Hk.
    + apply map_lookup_filter_Some. split; [exact Hk|exact Hp].
    + apply map_lookup_filter_None. left. exact Hk.
Qed.

Lemma remove_tree_subseteq (l : loc) (fs : gmap loc node) :
  remove_tree l fs ⊆ fs.
Proof. apply map_filter_subseteq. Qed.

Lemma denied_spec (w : world) (l : loc) :
  denied w l = false ->
  l <> [] /\ forall k, k ∈ locked w -> l `prefix_of` k -> files w !! k = None.
Proof.
  unfold denied. intros Hd. apply orb_false_elim in Hd as [Hroot Hex].
  apply bool_decide_eq_false in Hroot. split; [exact Hroot|].
  intros k Hin Hp. 
  destruct (files w !! k) as [n|] eqn:Hk; [|reflexivity]. exfalso.
  assert (existsb (fun k => bool_decide (l `prefix_of` k)
                            && bool_decide (is_Some (files w !! k)))
                  (locked w) = true) as Habs; [|congruence].
  apply existsb_exists. exists k. split; [apply list_elem_of_In, Hin|].
  apply andb_true_intro. split; apply bool_decide_eq_true; [exact Hp|].
  rewrite Hk. eauto.
Qed.

(** [s_rmdir] only deletes. *)
Lemma px_s_rmdir_shrinks (p : string) (w : world) :
  shrinks w (snd (px_s_rmdir p w)).
Proof.
  unfold px_s_rmdir. destruct (resolve w p) as [l|]; [|apply shrinks_refl].
  destruct (files w !! l); [|apply shrinks_refl].
  destruct (denied w l) eqn:Hd; [apply shrinks_refl|].
  destruct (denied_spec _ _ Hd) as [_ Hk].
  unfold shrinks. cbn. repeat apply conj; try reflexivity.
  - apply remove_tree_subseteq.
  - intros k Hin. rewrite remove_tree_lookup.
    destruct (decide (l `prefix_of` k)) as [Hp|]; [|reflexivity].
    symmetry. apply Hk; assumption.
Qed.

(** [unlink] only deletes. *)
Lemma px_unlink_shrinks (p : string) (w : world) :
  shrinks w (snd (px_unlink p w)).
Proof.
  unfold px_unlink. destruct (resolve w p) as [l|]; [|apply shrinks_refl].
  destruct (files w !! l) as [[| |]|]; try apply shrinks_refl;
    (destruct (bool_decide (l = []) || bool_decide (l ∈ locked w)) eqn:Hd;
     [apply shrinks_refl|]);
    apply orb_false_elim in Hd as [_ Hl]; apply bool_decide_eq_false in Hl;
    unfold shrinks; cbn; repeat apply conj; try reflexivity;
    try apply delete_subseteq;
    intros k Hin; apply lookup_delete_ne; congruence.
Qed.

End PosixFacts.
Section Deletions.
Import Posix.

Lemma stat_after (w w' : world) (p : string) (l : loc) :
  shrinks w w' -> resolve w p = Some l -> files w' !! l = None ->
  stat w' p = None.
Proof.
  intros Hs Hr Hl. unfold stat.
  destruct (resolve w' p) as [l'|] eqn:Hr'; [|reflexivity].
  apply (resolve_mono _ _ _ _ Hs) in Hr'. congruence.
Qed.

(** What a successful [unlink] removed is not found again. *)
Lemma px_unlink_gone (p : string) (w : world) :
  fst (px_unlink p w) = 0 -> stat (snd (px_unlink p w)) p = None.
Proof.
  intros H0. pose proof (px_unlink_shrinks p w) as Hs. revert H0 Hs.
  unfold px_unlink. destruct (resolve w p) as [l|] eqn:Hr; [|discriminate].
  destruct (files w !! l) as [[| |]|]; try discriminate;
    (destruct (bool_decide (l = []) || bool_decide (l ∈ locked w));
     [discriminate|]);
    cbn; intros _ Hs; apply (stat_after _ _ _ _ Hs Hr); cbn;
    apply lookup_delete_eq.
Qed.

(** What a successful [s_rmdir] removed is not found again. *)
Lemma px_s_rmdir_gone (p : string) (w : world) :
  fst (px_s_rmdir p w) = 0 -> stat (snd (px_s_rmdir p w)) p = None.
Proof.
  intros H0. pose proof (px_s_rmdir_shrinks p w) as Hs. revert H0 Hs.
  unfold px_s_rmdir. destruct (resolve w p) as [l|] eqn:Hr; [|discriminate].
  destruct (files w !! l); [|discriminate].
  destruct (denied w l); [discriminate|].
  cbn. intros _ Hs. apply (stat_after _ _ _ _ Hs Hr). cbn.
  rewrite remove_tree_lookup. rewrite decide_True; reflexivity.
Qed.

(** A deletion that fails changes nothing. *)
Lemma px_unlink_failed (p : string) (w : world) :
  fst (px_unlink p w) <> 0 -> snd (px_unlink p w) = w.
Proof.
  unfold px_unlink. destruct (resolve w p) as [l|]; [|reflexivity].
  destruct (files w !! l) as [[| |]|]; try reflexivity;
    (destruct (bool_decide (l = []) || bool_decide (l ∈ locked w));
     [reflexivity|]); cbn; congruence.
Qed.

Lemma px_s_rmdir_failed (p : string) (w : world) :
  fst (px_s_rmdir p w) <> 0 -> snd (px_s_rmdir p w) = w.
Proof.
  unfold px_s_rmdir. destruct (resolve w p) as [l|]; [|reflexivity].
  destruct (files w !! l); [|reflexivity].
  destruct (denied w l); [reflexivity|]. cbn. congruence.
Qed.

Lemma denied_persists (w w' : world) (l : loc) :
  shrinks w w' -> denied w l = true -> denied w' l = true.
Proof.
  intros (_ & _ & Hl & _ & _ & _ & Hk). unfold denied. rewrite Hl.
  intros Hd. apply orb_prop in Hd as [Hd|Hd]; [rewrite Hd; reflexivity|].
  apply orb_true_intro. right. apply existsb_exists in Hd as (k & Hin & Hd).
  apply existsb_exists. exists k. split; [exact Hin|].
  rewrite Hk; [exact Hd|]. apply list_elem_of_In, Hin.
Qed.

(** A directory that could not be removed cannot be removed after further
    deletions either. *)
Lemma px_s_rmdir_fails_again (w w' : world) (p : string) :
  shrinks w w' -> fst (px_s_rmdir p w) <> 0 -> px_is_dir p w' = 0 ->
  snd (px_s_rmdir p w') = w'.
Proof.
  intros Hs Hfail Hdir. apply px_s_rmdir_failed. revert Hfail Hdir.
  unfold px_is_dir, stat, px_s_rmdir.
  destruct (resolve w' p) as [l|] eqn:Hr'; [|discriminate].
  rewrite (resolve_mono _ _ _ _ Hs Hr').
  destruct (files w' !! l) as [n|] eqn:Hl'; [|discriminate].
  destruct Hs as (Hf & Hrest). rewrite (lookup_weaken _ _ _ _ Hl' Hf).
  destruct (denied w l) eqn:Hd; [|cbn; congruence].
  rewrite (denied_persists w w' l (conj Hf Hrest) Hd). discriminate.
Qed.

End Deletions.
(* ===================================================================== *)
(** ** The scanner's loop, entry by entry *)
(* ===================================================================== *)

Section ScannerLoop.
Context {world : Type} `{Sys world}.

Lemma loop_stops (h : header) (rest : list header) (rootfs_dir : string)
    (w : world) :
  h_status h <> ARCHIVE_OK ->
  apply_whiteouts_loop (h :: rest) rootfs_dir w = (Ret 0, w, []).
Proof.
  intros Hne. cbn [apply_whiteouts_loop].
  apply Z.eqb_neq in Hne. rewrite Hne. reflexivity.
Qed.

Lemma loop_cons_result (h : header) (rest : list header) (rootfs_dir : string)
    (w : world) :
  h_status h = ARCHIVE_OK ->
  result_of (apply_whiteouts_loop (h :: rest) rootfs_dir w) =
  match result_of (handle (pathname (h_entry h)) rootfs_dir w) with
  | Ret r =>
      if r =? 0 then
        result_of (apply_whiteouts_loop rest rootfs_dir
                     (world_of (handle (pathname (h_entry h)) rootfs_dir w)))
      else Ret r
  | Exit c => Exit c
  end.
Proof.
  intros Hok. cbn [apply_whiteouts_loop]. rewrite Hok. cbn [Z.eqb ARCHIVE_OK].
  unfold handle.
  destruct (contains _ "/.wh..wh..opq");
    [|destruct (contains _ "/.wh."); [|reflexivity]];
    rewrite !result_bind; cbn [singularity_message emit result_of world_of fst snd];
    (destruct (result_of _) as [r|c]; [|reflexivity]);
    destruct (r =? 0); reflexivity.
Qed.

Lemma loop_cons_world (h : header) (rest : list header) (rootfs_dir : string)
    (w : world) :
  h_status h = ARCHIVE_OK ->
  world_of (apply_whiteouts_loop (h :: rest) rootfs_dir w) =
  match result_of (handle (pathname (h_entry h)) rootfs_dir w) with
  | Ret r =>
      if r =? 0 then
        world_of (apply_whiteouts_loop rest rootfs_dir
                    (world_of (handle (pathname (h_entry h)) rootfs_dir w)))
      else world_of (handle (pathname (h_entry h)) rootfs_dir w)
  | Exit c => world_of (handle (pathname (h_entry h)) rootfs_dir w)
  end.
Proof.
  intros Hok. cbn [apply_whiteouts_loop]. rewrite Hok. cbn [Z.eqb ARCHIVE_OK].
  unfold handle.
  destruct (contains _ "/.wh..wh..opq");
    [|destruct (contains _ "/.wh."); [|reflexivity]];
    rewrite !world_bind, ?result_bind;
    cbn [singularity_message emit result_of world_of fst snd];
    (destruct (result_of _) as [r|c]; [|reflexivity]);
    destruct (r =? 0); reflexivity.
Qed.

(** The scan stops at the first handler that reports an error: its result
    is that error and nothing of the later entries is logged. *)
Lemma scan_stops_at_reported_error (h : header) (rest : list header)
    (rootfs_dir : string) (w : world) (r : Z) :
  h_status h = ARCHIVE_OK ->
  result_of (handle (pathname (h_entry h)) rootfs_dir w) = Ret r -> r <> 0 ->
  result_of (apply_whiteouts_loop (h :: rest) rootfs_dir w) = Ret r
  /\ exists msg,
       trace_of (apply_whiteouts_loop (h :: rest) rootfs_dir w)
       = msg :: trace_of (handle (pathname (h_entry h)) rootfs_dir w).
Proof.
  intros Hok Hres Hr. split.
  - rewrite (loop_cons_result _ _ _ _ Hok), Hres.
    apply Z.eqb_neq in Hr. rewrite Hr. reflexivity.
  - revert Hres. cbn [apply_whiteouts_loop]. rewrite Hok.
    cbn [Z.eqb ARCHIVE_OK]. unfold handle.
    destruct (contains _ "/.wh..wh..opq");
      [|destruct (contains _ "/.wh."); [|intros [= <-]; congruence]];
      intros Hres; rewrite !trace_bind;
      cbn [singularity_message emit result_of world_of trace_of fst snd];
      rewrite Hres; apply Z.eqb_neq in Hr; rewrite Hr; cbn [negb ret trace_of snd];
      rewrite app_nil_r; eexists; reflexivity.
Qed.

(** With the archive opened, the world after [apply_whiteouts] is the world
    after its loop. *)
Lemma apply_whiteouts_world (tarfile rootfs_dir : string) (w : world) :
  world_of (apply_whiteouts tarfile rootfs_dir w) =
  if fst (archive_read_open_filename tarfile w) =? ARCHIVE_OK then
    world_of (apply_whiteouts_loop
                (headers (snd (archive_read_open_filename tarfile w)))
                rootfs_dir w)
  else w.
Proof.
  unfold apply_whiteouts. rewrite bind_ask. rewrite world_bind.
  cbn [emit result_of world_of fst snd].
  destruct (fst (archive_read_open_filename tarfile w) =? ARCHIVE_OK);
    cbn [negb]; [|reflexivity].
  rewrite world_bind.
  destruct (result_of (apply_whiteouts_loop _ _ w)); [|reflexivity].
  destruct (negb (free_status _ =? ARCHIVE_OK)); [|reflexivity].
  rewrite world_bind. reflexivity.
Qed.

Lemma apply_whiteouts_result (tarfile rootfs_dir : string) (w : world) :
  result_of (apply_whiteouts tarfile rootfs_dir w) = Ret 0 ->
  fst (archive_read_open_filename tarfile w) = ARCHIVE_OK
  /\ result_of (apply_whiteouts_loop
                  (headers (snd (archive_read_open_filename tarfile w)))
                  rootfs_dir w) = Ret 0.
Proof.
  unfold apply_whiteouts. rewrite bind_ask. rewrite result_bind.
  cbn [emit result_of world_of fst snd].
  destruct (fst (archive_read_open_filename tarfile w) =? ARCHIVE_OK) eqn:Ho;
    cbn [negb]; [|discriminate].
  apply Z.eqb_eq in Ho. rewrite result_bind.
  destruct (result_of (apply_whiteouts_loop _ _ w)) as [r|c]; [|discriminate].
  destruct (negb (free_status _ =? ARCHIVE_OK)).
  - rewrite result_bind. discriminate.
  - intros [= ->]. auto.
Qed.

End ScannerLoop.
Section Handle.
Context {world : Type} `{Sys world}.

Lemma strstr_finds (needle t : string) :
  String.prefix needle t = true -> strstr t needle = Some t.
Proof. intros Hp. rewrite strstr_unfold, Hp. reflexivity. Qed.

Lemma strstr_after (a needle t : string) (c : ascii) :
  String.prefix needle t = true -> strstr (a +:+ String c t) needle <> None.
Proof.
  intros Hp. induction a as [|x a IH]; cbn [String.append];
    rewrite strstr_unfold.
  - destruct (String.prefix needle (String c t)); [discriminate|].
    rewrite (strstr_finds _ _ Hp). discriminate.
  - destruct (String.prefix needle (String x _)); [discriminate|exact IH].
Qed.

(** A pathname that contains [/.wh.] contains [.wh.]: [apply_whiteout]
    finds its token whenever the loop calls it. *)
Lemma contains_wh (p : string) :
  contains p "/.wh." = true -> exists q, whiteout_path p = Some q.
Proof.
  unfold contains, whiteout_path.
  destruct (strstr p "/.wh.") as [token|] eqn:Hs; [intros _|discriminate].
  destruct (strstr_length _ _ _ Hs) as (Hp & _ & Hsplit).
  destruct token as [|c token]; cbn [String.prefix] in Hp; [discriminate Hp|].
  destruct (ascii_dec "/" c) as [<-|]; [|discriminate Hp].
  pose proof (strstr_after (before p (String "/" token)) _ _ "/" Hp) as Hne.
  rewrite <- Hsplit in Hne.
  destruct (strstr p ".wh."); [eauto|congruence].
Qed.

(** The scanner never takes the [ABORT] of its two handlers. *)
Lemma handle_returns (p rootfs_dir : string) (w : world) :
  exists r, result_of (handle p rootfs_dir w) = Ret r.
Proof.
  unfold handle.
  destruct (contains p "/.wh..wh..opq") eqn:Ho.
  - rewrite apply_opaque_eq. destruct (contains_slash _ _ Ho) as [q ->].
    cbv zeta. destruct (is_dir _ w =? 0); eauto.
  - destruct (contains p "/.wh.") eqn:Hw; [|eauto].
    rewrite apply_whiteout_eq. destruct (contains_wh _ Hw) as [q ->].
    cbv zeta. destruct (is_dir _ w =? 0); [eauto|].
    destruct (is_file _ w =? 0); eauto.
Qed.

(** The four things [handle] can do. *)
Lemma handle_view (p rootfs_dir : string) (w : world) :
  let x := handle p rootfs_dir w in
  (result_of x = Ret 0 /\ world_of x = w
   /\ forall q, derived p = Some q ->
        is_dir (under rootfs_dir q) w <> 0
        /\ (contains p "/.wh..wh..opq" = false ->
            is_file (under rootfs_dir q) w <> 0))
  \/ (exists q, derived p = Some q /\ contains p "/.wh..wh..opq" = true
        /\ is_dir (under rootfs_dir q) w = 0
        /\ result_of x = Ret 0
        /\ world_of x = snd (s_rmdir (under rootfs_dir q) w))
  \/ (exists q, derived p = Some q /\ contains p "/.wh..wh..opq" = false
        /\ is_dir (under rootfs_dir q) w = 0
        /\ result_of x = Ret (fst (s_rmdir (under rootfs_dir q) w))
        /\ world_of x = snd (s_rmdir (under rootfs_dir q) w))
  \/ (exists q, derived p = Some q /\ contains p "/.wh..wh..opq" = false
        /\ is_dir (under rootfs_dir q) w <> 0
        /\ is_file (under rootfs_dir q) w = 0
        /\ result_of x = Ret (fst (unlink (under rootfs_dir q) w))
        /\ world_of x = snd (unlink (under rootfs_dir q) w)).
Proof.
  cbv zeta. unfold handle, derived.
  destruct (contains p "/.wh..wh..opq") eqn:Ho.
  - rewrite apply_opaque_eq. destruct (contains_slash _ _ Ho) as [q ->].
    cbv zeta. destruct (is_dir _ w =? 0) eqn:Hd.
    + apply Z.eqb_eq in Hd. right. left. exists q. auto.
    + apply Z.eqb_neq in Hd. left. repeat apply conj; try reflexivity.
      intros q' [= <-]. split; [exact Hd|discriminate].
  - destruct (contains p "/.wh.") eqn:Hw.
    + rewrite apply_whiteout_eq. destruct (contains_wh _ Hw) as [q ->].
      cbv zeta. destruct (is_dir _ w =? 0) eqn:Hd.
      * apply Z.eqb_eq in Hd. right. right. left. exists q. auto.
      * apply Z.eqb_neq in Hd. destruct (is_file _ w =? 0) eqn:Hf.
        -- apply Z.eqb_eq in Hf. right. right. right. exists q. auto 10.
        -- apply Z.eqb_neq in Hf. left. repeat apply conj; try reflexivity.
           intros q' [= <-]. auto.
    + left. repeat apply conj; try reflexivity. discriminate.
Qed.

End Handle.
(* ===================================================================== *)
(** ** The scanner on the file system *)
(* ===================================================================== *)

Section ScannerOnPosix.
Import Posix.

Lemma px_is_dir_mono (w w' : world) (p : string) :
  shrinks w w' -> px_is_dir p w' = 0 -> px_is_dir p w = 0.
Proof.
  intros Hs. unfold px_is_dir. destruct (stat w' p) as [n|] eqn:Hn; [|discriminate].
  rewrite (stat_mono _ _ _ _ Hs Hn). trivial.
Qed.

Lemma px_is_file_mono (w w' : world) (p : string) :
  shrinks w w' -> px_is_file p w' = 0 -> px_is_file p w = 0.
Proof.
  intros Hs. unfold px_is_file. destruct (stat w' p) as [n|] eqn:Hn; [|discriminate].
  rewrite (stat_mono _ _ _ _ Hs Hn). trivial.
Qed.

Lemma stat_none_not_found (w : world) (p : string) :
  stat w p = None -> px_is_dir p w <> 0 /\ px_is_file p w <> 0.
Proof. unfold px_is_dir, px_is_file. intros ->. split; discriminate. Qed.

Lemma handle_shrinks (p rootfs_dir : string) (w : world) :
  shrinks w (world_of (handle p rootfs_dir w)).
Proof.
  destruct (handle_view p rootfs_dir w)
    as [(_ & -> & _)|[(q & _ & _ & _ & _ & ->)|[(q & _ & _ & _ & _ & ->)
       |(q & _ & _ & _ & _ & _ & ->)]]].
  - apply shrinks_refl.
  - apply px_s_rmdir_shrinks.
  - apply px_s_rmdir_shrinks.
  - apply px_unlink_shrinks.
Qed.

(** After [handle] has returned 0, the marker's target is neither a
    directory nor (for a whiteout) a regular file, unless it is an opaque
    marker whose [s_rmdir] failed and changed nothing. *)
Lemma handle_settled (p rootfs_dir q : string) (w : world) :
  result_of (handle p rootfs_dir w) = Ret 0 ->
  derived p = Some q ->
  let path := under rootfs_dir q in
  let w1 := world_of (handle p rootfs_dir w) in
  (px_is_dir path w1 <> 0
   /\ (contains p "/.wh..wh..opq" = false -> px_is_file path w1 <> 0))
  \/ (contains p "/.wh..wh..opq" = true /\ w1 = w
      /\ fst (px_s_rmdir path w) <> 0).
Proof.
  intros Hres Hq. cbv zeta.
  destruct (handle_view p rootfs_dir w)
    as [(_ & -> & Hno)|[(q' & Hq' & Ho & Hd & _ & ->)
       |[(q' & Hq' & Ho & Hd & Hr & ->)|(q' & Hq' & Ho & Hd & Hf & Hr & ->)]]].
  - left. apply Hno, Hq.
  - assert (q' = q) as -> by congruence.
    destruct (Z.eq_dec (fst (s_rmdir (under rootfs_dir q) w)) 0) as [H0|Hne].
    + left. destruct (stat_none_not_found _ _ (px_s_rmdir_gone _ _ H0)).
      split; [assumption|congruence].
    + right. repeat apply conj; [exact Ho| |exact Hne].
      apply px_s_rmdir_failed, Hne.
  - assert (q' = q) as -> by congruence. left.
    assert (fst (s_rmdir (under rootfs_dir q) w) = 0) as H0 by congruence.
    destruct (stat_none_not_found _ _ (px_s_rmdir_gone _ _ H0)). auto.
  - assert (q' = q) as -> by congruence. left.
    assert (fst (unlink (under rootfs_dir q) w) = 0) as H0 by congruence.
    destruct (stat_none_not_found _ _ (px_unlink_gone _ _ H0)). auto.
Qed.

(** A [handle] that reports an error has changed nothing. *)
Lemma handle_failed (p rootfs_dir : string) (w : world) (r : Z) :
  result_of (handle p rootfs_dir w) = Ret r -> r <> 0 ->
  world_of (handle p rootfs_dir w) = w.
Proof.
  intros Hres Hr.
  destruct (handle_view p rootfs_dir w)
    as [(H0 & _)|[(q' & _ & _ & _ & H0 & _)
       |[(q' & _ & _ & _ & Hr' & ->)|(q' & _ & _ & _ & _ & Hr' & ->)]]];
    try congruence.
  - apply px_s_rmdir_failed. change px_s_rmdir with s_rmdir. congruence.
  - apply px_unlink_failed. change px_unlink with unlink. congruence.
Qed.

(** Handling the same marker again, after any further deletions, does
    nothing. *)
Lemma handle_again (p rootfs_dir : string) (w F : world) :
  result_of (handle p rootfs_dir w) = Ret 0 ->
  shrinks (world_of (handle p rootfs_dir w)) F ->
  result_of (handle p rootfs_dir F) = Ret 0
  /\ world_of (handle p rootfs_dir F) = F.
Proof.
  intros Hres Hs.
  pose proof (handle_settled p rootfs_dir) as Hset.
  destruct (handle_view p rootfs_dir F)
    as [(H0 & HF & _)|[(q & Hq & Ho & Hd & H0 & HF)
       |[(q & Hq & Ho & Hd & Hr & HF)|(q & Hq & Ho & Hd & Hf & Hr & HF)]]].
  - auto.
  - split; [exact H0|]. rewrite HF.
    destruct (Hset q w Hres Hq) as [[Hnd _]|(_ & Hw & Hfail)].
    + exfalso. apply Hnd. exact (px_is_dir_mono _ _ _ Hs Hd).
    + rewrite Hw in Hs. exact (px_s_rmdir_fails_again w F _ Hs Hfail Hd).
  - exfalso. destruct (Hset q w Hres Hq) as [[Hnd _]|(Ho' & _)]; [|congruence].
    apply Hnd. exact (px_is_dir_mono _ _ _ Hs Hd).
  - exfalso. destruct (Hset q w Hres Hq) as [[_ Hnf]|(Ho' & _)]; [|congruence].
    apply (Hnf Ho). exact (px_is_file_mono _ _ _ Hs Hf).
Qed.

Lemma loop_shrinks (hs : list header) (rootfs_dir : string) (w : world) :
  shrinks w (world_of (apply_whiteouts_loop hs rootfs_dir w)).
Proof.
  revert w. induction hs as [|h hs IH]; intros w; [apply shrinks_refl|].
  destruct (Z.eq_dec (h_status h) ARCHIVE_OK) as [Hok|Hne].
  - rewrite (loop_cons_world _ _ _ _ Hok).
    pose proof (handle_shrinks (pathname (h_entry h)) rootfs_dir w) as Hs.
    destruct (result_of (handle _ _ w)) as [r|c]; [|exact Hs].
    destruct (r =? 0); [|exact Hs].
    eapply shrinks_trans; [exact Hs|apply IH].
  - rewrite (loop_stops _ _ _ _ Hne). apply shrinks_refl.
Qed.

(** Scanning the same layer again finds nothing left to delete. *)
Lemma loop_again (hs : list header) (rootfs_dir : string) (w : world) :
  world_of (apply_whiteouts_loop hs rootfs_dir
              (world_of (apply_whiteouts_loop hs rootfs_dir w)))
  = world_of (apply_whiteouts_loop hs rootfs_dir w).
Proof.
  revert w. induction hs as [|h hs IH]; intros w; [reflexivity|].
  destruct (Z.eq_dec (h_status h) ARCHIVE_OK) as [Hok|Hne].
  - rewrite (loop_cons_world _ _ _ w Hok).
    destruct (handle_returns (pathname (h_entry h)) rootfs_dir w) as [r Hr].
    rewrite Hr. destruct (r =? 0) eqn:Hr0.
    + apply Z.eqb_eq in Hr0. subst r.
      set (w1 := world_of (handle (pathname (h_entry h)) rootfs_dir w)).
      set (F := world_of (apply_whiteouts_loop hs rootfs_dir w1)).
      assert (shrinks w1 F) as Hs by apply loop_shrinks.
      destruct (handle_again _ _ _ _ Hr Hs) as [Hr' Hw'].
      rewrite (loop_cons_world _ _ _ F Hok), Hr', Hw'. apply IH.
    + apply Z.eqb_neq in Hr0.
      rewrite (handle_failed _ _ _ _ Hr Hr0).
      rewrite (loop_cons_world _ _ _ w Hok), Hr.
      apply Z.eqb_neq in Hr0. rewrite Hr0.
      apply handle_failed with r; [exact Hr|]. apply Z.eqb_neq, Hr0.
  - rewrite !(loop_stops _ _ _ _ Hne). reflexivity.
Qed.

Lemma px_open_mono (w w' : world) (tarfile : string) :
  shrinks w w' -> fst (px_open tarfile w') = ARCHIVE_OK ->
  px_open tarfile w' = px_open tarfile w.
Proof.
  intros Hs. unfold px_open.
  destruct (stat w' tarfile) as [n|] eqn:Hn; [|discriminate].
  rewrite (stat_mono _ _ _ _ Hs Hn). trivial.
Qed.


End ScannerOnPosix.
(* ===================================================================== *)
(** ** A whiteout marker [dir/.wh.name] *)
(* ===================================================================== *)

Section NamedMarker.

Lemma app_str_assoc (a b c : string) : (a +:+ b) +:+ c = a +:+ (b +:+ c).
Proof. induction a as [|x a IH]; cbn [String.append]; [reflexivity|]. f_equal. exact IH. Qed.

Lemma prefix_app (n t : string) : String.prefix n (n +:+ t) = true.
Proof.
  induction n as [|x n IH]; cbn [String.append String.prefix].
  - destruct t; reflexivity.
  - destruct (ascii_dec x x); [exact IH|congruence].
Qed.

Lemma strstr_app_prefix (a needle t : string) :
  String.prefix needle t = true -> strstr (a +:+ t) needle <> None.
Proof.
  intros Hp. induction a as [|x a IH]; cbn [String.append].
  - rewrite (strstr_finds _ _ Hp). discriminate.
  - rewrite strstr_unfold.
    destruct (String.prefix needle (String x _)); [discriminate|exact IH].
Qed.

Lemma before_app (a t : string) : before (a +:+ t) t = a.
Proof.
  unfold before. rewrite strlen_app.
  replace (strlen a + strlen t - strlen t)%nat with (strlen a) by lia.
  induction a as [|x a IH]; cbn [String.append].
  - destruct t; reflexivity.
  - unfold strlen in *. cbn [String.length take_str]. f_equal. exact IH.
Qed.

(** [.wh.] has no [/]: a match that starts in [s] lies within [s]. *)
Lemma wh_prefix_before_slash (s t : string) :
  String.prefix ".wh." (s +:+ String "/" t) = true ->
  String.prefix ".wh." s = true.
Proof.
  destruct s as [|x1 [|x2 [|x3 [|x4 s]]]];
    cbn [String.append String.prefix];
    repeat match goal with
           | |- context [ascii_dec ?a ?b] =>
               destruct (ascii_dec a b) as [?|?]; try discriminate; subst
           end; trivial.
  destruct s; reflexivity.
Qed.

Lemma contains_false_cons (x : ascii) (s needle : string) :
  contains (String x s) needle = false ->
  String.prefix needle (String x s) = false /\ contains s needle = false.
Proof.
  unfold contains. rewrite strstr_unfold.
  destruct (String.prefix needle (String x s)); [discriminate|]. auto.
Qed.

Lemma strstr_skip_dir (dir t : string) :
  contains dir ".wh." = false ->
  strstr (dir +:+ String "/" t) ".wh." = strstr t ".wh.".
Proof.
  induction dir as [|x dir IH]; intros Hc; cbn [String.append].
  - rewrite strstr_unfold. reflexivity.
  - apply contains_false_cons in Hc as [Hp Hc].
    rewrite strstr_unfold.
    destruct (String.prefix ".wh." (String x (dir +:+ String "/" t))) eqn:Hp'.
    + apply (wh_prefix_before_slash (String x dir) t) in Hp'. congruence.
    + apply IH, Hc.
Qed.

(** The target of [dir/.wh.name], when [dir] has no [.wh.] of its own, is
    [dir/name]. *)
Lemma whiteout_path_named (dir name : string) :
  contains dir ".wh." = false ->
  whiteout_path (dir +:+ "/.wh." +:+ name) = Some (dir +:+ "/" +:+ name).
Proof.
  intros Hc. unfold whiteout_path.
  change (dir +:+ "/.wh." +:+ name) with (dir +:+ String "/" (".wh." +:+ name)).
  rewrite (strstr_skip_dir _ _ Hc), (strstr_finds ".wh." (".wh." +:+ name))
    by apply prefix_app.
  change (dir +:+ String "/" (".wh." +:+ name))
    with (dir +:+ ("/" +:+ (".wh." +:+ name))).
  rewrite <- app_str_assoc, before_app, app_str_assoc. reflexivity.
Qed.

Lemma contains_named (dir name : string) :
  contains (dir +:+ "/.wh." +:+ name) "/.wh." = true.
Proof.
  unfold contains.
  pose proof (strstr_app_prefix dir "/.wh." ("/.wh." +:+ name)
                (prefix_app _ _)) as Hne.
  destruct (strstr _ "/.wh."); [reflexivity|congruence].
Qed.

End NamedMarker.

Section NamedMarkerOnPosix.
Import Posix.

(** Once the loop has returned 0 over a layer read without error, the
    target of each of its whiteout markers is not a regular file. *)
Lemma loop_targets_gone (hs : list header) (rootfs_dir q : string)
    (h : header) (w : world) :
  well_read hs -> In h hs ->
  contains (pathname (h_entry h)) "/.wh..wh..opq" = false ->
  derived (pathname (h_entry h)) = Some q ->
  result_of (apply_whiteouts_loop hs rootfs_dir w) = Ret 0 ->
  px_is_file (under rootfs_dir q)
             (world_of (apply_whiteouts_loop hs rootfs_dir w)) <> 0.
Proof.
  intros Hwr Hin Ho Hq. revert w.
  induction hs as [|h0 hs IH]; intros w Hres; [destruct Hin|].
  apply Forall_cons in Hwr as [Hok Hwr].
  rewrite (loop_cons_result _ _ _ _ Hok) in Hres.
  rewrite (loop_cons_world _ _ _ _ Hok).
  destruct (result_of (handle (pathname (h_entry h0)) rootfs_dir w))
    as [r|c] eqn:Hr; [|discriminate].
  destruct (r =? 0) eqn:Hr0; [|apply Z.eqb_neq in Hr0; congruence].
  apply Z.eqb_eq in Hr0. subst r.
  destruct Hin as [<-|Hin]; [|exact (IH Hwr Hin _ Hres)].
  destruct (handle_settled _ rootfs_dir q w Hr Hq) as [[_ Hnf]|(Ho' & _)];
    [|congruence].
  intros Hfile. apply (Hnf Ho).
  exact (px_is_file_mono _ _ _ (loop_shrinks _ _ _) Hfile).
Qed.

(** C2, amended: the layer is read without error and holds the marker
    [dir/.wh.name], where [dir] contains no [.wh.] and the pathname is not
    an opaque marker's.  When [apply_whiteouts] returns 0, [dir/name] under
    the rootfs is not a regular file, and the extractor writes no header
    for the marker entry. *)
Theorem whiteout_removes_named_file
    (tarfile rootfs_dir dir name : string) (e : entry) (w : world) :
  well_read (headers (snd (px_open tarfile w))) ->
  In (Header ARCHIVE_OK e) (headers (snd (px_open tarfile w))) ->
  pathname e = dir +:+ "/.wh." +:+ name ->
  contains dir ".wh." = false ->
  contains (pathname e) "/.wh..wh..opq" = false ->
  result_of (apply_whiteouts tarfile rootfs_dir w) = Ret 0 ->
  px_is_file (under rootfs_dir (dir +:+ "/" +:+ name))
             (world_of (apply_whiteouts tarfile rootfs_dir w)) <> 0
  /\ forall w2 : world, ~ writes e (trace_of (extract_tar tarfile rootfs_dir w2)).
Proof.
  intros Hwr Hin Hp Hdir Ho Hres. split.
  - destruct (apply_whiteouts_result _ _ _ Hres) as [Hopen Hloop].
    rewrite apply_whiteouts_world, Hopen. cbn [Z.eqb ARCHIVE_OK].
    apply (loop_targets_gone _ _ _ (Header ARCHIVE_OK e)); try assumption.
    unfold derived. cbn [h_entry]. rewrite Ho, Hp, contains_named.
    apply whiteout_path_named, Hdir.
  - intros w2 [r Hw].
    pose proof (extract_tar_filter tarfile rootfs_dir w2) as Hf.
    rewrite Forall_forall in Hf. apply list_elem_of_In in Hw.
    specialize (Hf _ Hw e r eq_refl). unfold skipped in Hf.
    rewrite Hp, contains_named in Hf. discriminate.
Qed.

End NamedMarkerOnPosix.

Section NamedMarkerWitness.
Import Posix Scenario.

Lemma whiteout_removes_named_file_witness :
  px_is_file "/r/usr/share/doc/test/oldfile" w_doc = 0
  /\ px_is_file "/r/usr/share/doc/test/oldfile"
                (world_of (apply_whiteouts "/t.tar" "/r" w_doc)) <> 0.
Proof.
  split; [vm_compute; reflexivity|].
  refine (proj1 (whiteout_removes_named_file
                   "/t.tar" "/r" "usr/share/doc/test" "oldfile" e_marker w_doc
                   _ _ eq_refl _ _ _)).
  - vm_compute. repeat constructor.
  - vm_compute. tauto.
  - vm_compute. reflexivity.
  - vm_compute. reflexivity.
  - vm_compute. reflexivity.
Defined.

End NamedMarkerWitness.
(* ===================================================================== *)
(** ** The paths the two phases act on *)
(* ===================================================================== *)

Section ActedPaths.
Context {world : Type} `{Sys world}.

Lemma deletes_derived_cons (h : header) (hs : list header)
    (rootfs_dir : string) (ev : event) :
  deletes_derived hs rootfs_dir ev -> deletes_derived (h :: hs) rootfs_dir ev.
Proof.
  intros Hd path r Hev. destruct (Hd path r Hev) as (h' & q & Hin & Hq & Hp).
  exists h', q. repeat apply conj; [right; exact Hin|exact Hq|exact Hp].
Qed.

Lemma handle_deletes_derived (h : header) (hs : list header)
    (rootfs_dir : string) (w : world) :
  Forall (deletes_derived (h :: hs) rootfs_dir)
         (trace_of (handle (pathname (h_entry h)) rootfs_dir w)).
Proof.
  assert (forall q r ev, derived (pathname (h_entry h)) = Some q ->
            ev = EvRmdir (under rootfs_dir q) r
            \/ ev = EvUnlink (under rootfs_dir q) r ->
            deletes_derived (h :: hs) rootfs_dir ev) as Hmine.
  { intros q r ev Hq Hev path r' Hev'. exists h, q.
    repeat apply conj; [left; reflexivity|exact Hq|].
    destruct Hev as [->| ->], Hev' as [Hev'|Hev']; congruence. }
  assert (forall l f a, deletes_derived (h :: hs) rootfs_dir (EvMessage l f a))
    as Hmsg by (intros l f a path r [Hev|Hev]; discriminate Hev).
  unfold handle, derived in *.
  destruct (contains _ "/.wh..wh..opq") eqn:Ho.
  - rewrite apply_opaque_eq. destruct (opaque_dir _) as [q|]; cbv zeta.
    + destruct (is_dir _ w =? 0); repeat constructor. eapply Hmine; eauto.
    + repeat constructor. apply Hmsg.
  - destruct (contains _ "/.wh.") eqn:Hw; [|constructor].
    rewrite apply_whiteout_eq. destruct (whiteout_path _) as [q|]; cbv zeta.
    + destruct (is_dir _ w =? 0); [repeat constructor; eapply Hmine; eauto|].
      destruct (is_file _ w =? 0); repeat constructor;
        [apply Hmsg|eapply Hmine; eauto].
    + repeat constructor. apply Hmsg.
Qed.

Lemma loop_cons_trace (h : header) (rest : list header) (rootfs_dir : string)
    (w : world) (P : event -> Prop) :
  (forall l f a, P (EvMessage l f a)) ->
  Forall P (trace_of (handle (pathname (h_entry h)) rootfs_dir w)) ->
  (forall w', Forall P (trace_of (apply_whiteouts_loop rest rootfs_dir w'))) ->
  Forall P (trace_of (apply_whiteouts_loop (h :: rest) rootfs_dir w)).
Proof.
  intros Hmsg Hh Hrest. cbn [apply_whiteouts_loop].
  destruct (h_status h =? ARCHIVE_OK); [|constructor].
  unfold handle in Hh.
  destruct (contains _ "/.wh..wh..opq");
    [|destruct (contains _ "/.wh."); [|apply Hrest]];
    rewrite !trace_bind;
    cbn [singularity_message emit result_of world_of trace_of fst snd];
    (constructor; [apply Hmsg|]); apply Forall_app; (split; [exact Hh|]);
    (destruct (result_of _) as [r|c]; [|constructor]);
    destruct (negb (r =? 0)); [constructor|apply Hrest|constructor|apply Hrest].
Qed.

(** Every deletion of the scanner is made at a derived path under the
    rootfs string. *)
Lemma loop_deletes_derived (hs : list header) (rootfs_dir : string) (w : world) :
  Forall (deletes_derived hs rootfs_dir)
         (trace_of (apply_whiteouts_loop hs rootfs_dir w)).
Proof.
  revert w. induction hs as [|h hs IH]; intros w; [constructor|].
  apply loop_cons_trace.
  - intros l f a path r [Hev|Hev]; discriminate Hev.
  - apply handle_deletes_derived.
  - intros w'. eapply Forall_impl; [apply IH|]. apply deletes_derived_cons.
Qed.

Lemma apply_whiteouts_deletes_derived (tarfile rootfs_dir : string) (w : world) :
  Forall (deletes_derived (headers (snd (archive_read_open_filename tarfile w)))
                          rootfs_dir)
         (trace_of (apply_whiteouts tarfile rootfs_dir w)).
Proof.
  unfold apply_whiteouts. rewrite bind_ask, trace_bind.
  cbn [emit result_of world_of trace_of fst snd].
  constructor; [intros path r [Hev|Hev]; discriminate Hev|].
  destruct (negb (fst _ =? ARCHIVE_OK)); [constructor|].
  rewrite trace_bind. apply Forall_app. split; [apply loop_deletes_derived|].
  destruct (result_of _); [|constructor].
  destruct (negb (free_status _ =? ARCHIVE_OK)); [|constructor].
  rewrite trace_bind. cbn [singularity_message emit result_of world_of trace_of fst snd].
  repeat constructor. intros path r [Hev|Hev]; discriminate Hev.
Qed.

Lemma hands_over_cons (h : header) (hs : list header) (ev : event) :
  hands_over hs ev -> hands_over (h :: hs) ev.
Proof.
  intros [Hw Ho]. split; [|exact Ho].
  intros e r Hev. destruct (Hw e r Hev) as (h' & Hin & He).
  exists h'. split; [right; exact Hin|exact He].
Qed.

Lemma hands_over_other (hs : list header) (ev : event) :
  (forall e r, ev <> EvWriteHeader e r) -> (forall f, ev <> EvOptions f) ->
  hands_over hs ev.
Proof.
  intros Hw Ho. split; [intros e r Hev; destruct (Hw e r Hev)|].
  intros f Hev. destruct (Ho f Hev).
Qed.

Lemma copy_data_hands_over (hs : list header) (bs : list block) :
  emits (hands_over hs) (copy_data bs).
Proof.
  induction bs as [|b bs IH]; cbn [copy_data]; emits_walk;
    apply hands_over_other; discriminate.
Qed.

Lemma extract_loop_hands_over (hs : list header) :
  emits (hands_over hs) (extract_loop hs).
Proof.
  induction hs as [|h hs IH]; cbn [extract_loop]; [emits_walk|].
  assert (emits (hands_over (h :: hs)) (extract_loop hs)) as IH'
    by (eapply emits_weaken; [apply hands_over_cons|exact IH]).
  pose proof (copy_data_hands_over (h :: hs)) as Hc.
  unfold extract_entry. emits_walk;
    try (apply hands_over_other; discriminate).
  split; [|discriminate]. intros e' r' [= <- _]. exists h. auto using in_eq.
Qed.

Lemma call_run (f : world -> Z * world) (ev : Z -> event) (w : world) :
  call f ev w = (Ret (fst (f w)), snd (f w), [ev (fst (f w))]).
Proof. unfold call. destruct (f w). reflexivity. Qed.

Lemma extract_tar_hands_over (tarfile rootfs_dir : string) (w : world) :
  let w1 := snd (archive_write_disk_set_options extract_flags w) in
  Forall (hands_over (headers (snd (archive_read_open_filename tarfile w1))))
         (trace_of (extract_tar tarfile rootfs_dir w)).
Proof.
  cbv zeta. unfold extract_tar. rewrite bind_ask. cbv beta zeta.
  rewrite trace_bind, call_run. cbn [result_of world_of trace_of fst snd app].
  constructor.
  { split; [discriminate|]. intros f [= <-]. auto. }
  rewrite bind_ask. cbv beta zeta.
  remember (archive_read_open_filename tarfile _) as opened eqn:Ho. clear Ho.
  pose proof (extract_loop_hands_over (headers (snd opened))) as Hl.
  match goal with
  | |- Forall ?P (trace_of (?m ?w0)) => generalize w0; change (emits P m)
  end.
  emits_walk; apply hands_over_other; discriminate.
Qed.

End ActedPaths.
(* ===================================================================== *)
(** ** Deletions that stay below the rootfs *)
(* ===================================================================== *)

Section Confinement.
Import Posix.

Lemma components_nonempty (s : string) : components s <> [].
Proof.
  induction s as [|a s IH]; cbn [components]; [discriminate|].
  destruct (Ascii.eqb a "/"); [discriminate|].
  destruct (components s); [congruence|discriminate].
Qed.

Lemma components_app (a b : string) :
  components (a +:+ String "/" b) = components a ++ components b.
Proof.
  induction a as [|x a IH]; cbn [String.append components].
  - reflexivity.
  - destruct (Ascii.eqb x "/"); rewrite IH; [reflexivity|].
    pose proof (components_nonempty a) as Hne.
    destruct (components a); [congruence|reflexivity].
Qed.

Lemma walk_app (fs : gmap loc node) (cur : loc) (c1 c2 : list string) :
  walk fs cur (c1 ++ c2) =
  match walk fs cur c1 with
  | Some l => walk fs l c2
  | None => None
  end.
Proof.
  revert cur. induction c1 as [|c c1 IH]; intros cur; cbn [app walk]; [reflexivity|].
  destruct (is_directory fs cur); [|reflexivity].
  destruct (String.eqb c "" || String.eqb c "."); [apply IH|].
  destruct (String.eqb c ".."); apply IH.
Qed.

(** The rootfs string resolves first; the derived path is walked from
    there. *)
Lemma resolve_under (w : world) (rootfs_dir q : string) (l : loc) :
  rootfs_dir <> ""%string ->
  resolve w (under rootfs_dir q) = Some l ->
  exists R, resolve w rootfs_dir = Some R
            /\ walk (files w) R (components q) = Some l.
Proof.
  unfold under, resolve. destruct rootfs_dir as [|a r]; [congruence|intros _].
  change (String a r +:+ "/" +:+ q) with (String a (r +:+ String "/" q)).
  cbv beta iota. destruct (Ascii.eqb a "/") eqn:Ha.
  - rewrite components_app, walk_app.
    destruct (walk (files w) [] (components r)) as [R|]; [eauto|intros [=]].
  - change (String a (r +:+ String "/" q)) with (String a r +:+ String "/" q).
    rewrite components_app, walk_app.
    destruct (walk (files w) (cwd w) (components (String a r))) as [R|];
      [eauto|intros [=]].
Qed.

(** A walk that never steps above its start ends below it. *)
Lemma walk_confined (fs : gmap loc node) (R d l : loc) (comps : list string) :
  climbs_not (length d) comps = true ->
  walk fs (R ++ d) comps = Some l -> R `prefix_of` l.
Proof.
  revert d. induction comps as [|c comps IH]; intros d; cbn [climbs_not walk].
  - intros _ [= <-]. apply prefix_app_r. reflexivity.
  - destruct (is_directory fs (R ++ d)); [|discriminate].
    destruct (String.eqb c "" || String.eqb c "."); [apply IH|].
    destruct (String.eqb c "..").
    + destruct d as [|x d _] using rev_ind; [discriminate|].
      rewrite length_app, Nat.add_1_r, app_assoc, removelast_last. apply IH.
    + intros Hc. rewrite <- app_assoc. apply IH.
      rewrite length_app, Nat.add_1_r. exact Hc.
Qed.

Lemma same_outside_refl (R : loc) (w : world) : same_outside R w w.
Proof. intros l _. reflexivity. Qed.

Lemma same_outside_trans (R : loc) (w1 w2 w3 : world) :
  same_outside R w1 w2 -> same_outside R w2 w3 -> same_outside R w1 w3.
Proof. intros H12 H23 l Hl. rewrite (H23 l Hl). apply H12, Hl. Qed.

Lemma px_unlink_outside (R : loc) (p : string) (w : world) :
  (forall l, resolve w p = Some l -> R `prefix_of` l) ->
  same_outside R w (snd (px_unlink p w)).
Proof.
  intros Hl. unfold px_unlink.
  destruct (resolve w p) as [l|]; [|apply same_outside_refl].
  specialize (Hl l eq_refl).
  destruct (files w !! l) as [[| |]|]; try apply same_outside_refl;
    (destruct (bool_decide (l = []) || bool_decide (l ∈ locked w));
     [apply same_outside_refl|]);
    intros k Hk; cbn; apply lookup_delete_ne; intros ->; exact (Hk Hl).
Qed.

Lemma px_s_rmdir_outside (R : loc) (p : string) (w : world) :
  (forall l, resolve w p = Some l -> R `prefix_of` l) ->
  same_outside R w (snd (px_s_rmdir p w)).
Proof.
  intros Hl. unfold px_s_rmdir.
  destruct (resolve w p) as [l|]; [|apply same_outside_refl].
  specialize (Hl l eq_refl).
  destruct (files w !! l); [|apply same_outside_refl].
  destruct (denied w l); [apply same_outside_refl|].
  intros k Hk. cbn. rewrite remove_tree_lookup.
  destruct (decide (l `prefix_of` k)) as [Hp|]; [|reflexivity].
  exfalso. apply Hk. etrans; eassumption.
Qed.

Lemma derived_resolves_below (w0 w : world) (rootfs_dir q : string) (R l : loc) :
  shrinks w0 w -> resolve w0 rootfs_dir = Some R -> stays_below q = true ->
  resolve w (under rootfs_dir q) = Some l -> R `prefix_of` l.
Proof.
  intros Hs HR Hq Hl.
  assert (rootfs_dir <> ""%string) as Hne by (intros ->; discriminate HR).
  destruct (resolve_under _ _ _ _ Hne Hl) as (R' & HR' & Hwalk).
  apply (resolve_mono _ _ _ _ Hs) in HR'.
  assert (R' = R) as -> by congruence.
  apply (walk_confined (files w) R [] l (components q)); [exact Hq|].
  rewrite app_nil_r. exact Hwalk.
Qed.

Lemma handle_outside (w0 w : world) (p rootfs_dir : string) (R : loc) :
  shrinks w0 w -> resolve w0 rootfs_dir = Some R ->
  (forall q, derived p = Some q -> stays_below q = true) ->
  same_outside R w (world_of (handle p rootfs_dir w)).
Proof.
  intros Hs HR Hq.
  destruct (handle_view p rootfs_dir w)
    as [(_ & -> & _)|[(q & Hd & _ & _ & _ & ->)|[(q & Hd & _ & _ & _ & ->)
       |(q & Hd & _ & _ & _ & _ & ->)]]].
  - apply same_outside_refl.
  - apply px_s_rmdir_outside. intros l.
    apply (derived_resolves_below w0 w _ _ _ _ Hs HR (Hq q Hd)).
  - apply px_s_rmdir_outside. intros l.
    apply (derived_resolves_below w0 w _ _ _ _ Hs HR (Hq q Hd)).
  - apply px_unlink_outside. intros l.
    apply (derived_resolves_below w0 w _ _ _ _ Hs HR (Hq q Hd)).
Qed.

Lemma loop_outside (w0 : world) (hs : list header) (rootfs_dir : string)
    (R : loc) (w : world) :
  markers_stay_below hs ->
  shrinks w0 w -> resolve w0 rootfs_dir = Some R ->
  same_outside R w (world_of (apply_whiteouts_loop hs rootfs_dir w)).
Proof.
  intros Hm Hs HR. revert w Hs.
  induction hs as [|h hs IH]; intros w Hs; [apply same_outside_refl|].
  assert (same_outside R w (world_of (handle (pathname (h_entry h)) rootfs_dir w)))
    as Hstep.
  { apply (handle_outside w0); try assumption.
    intros q. apply Hm. left. reflexivity. }
  destruct (Z.eq_dec (h_status h) ARCHIVE_OK) as [Hok|Hne].
  - rewrite (loop_cons_world _ _ _ _ Hok).
    destruct (result_of (handle _ _ w)) as [r|c]; [|exact Hstep].
    destruct (r =? 0); [|exact Hstep].
    eapply same_outside_trans; [exact Hstep|]. apply IH.
    + intros h' q Hin. apply Hm. right. exact Hin.
    + eapply shrinks_trans; [exact Hs|apply handle_shrinks].
  - rewrite (loop_stops _ _ _ _ Hne). apply same_outside_refl.
Qed.


End Confinement.

Section ConfinementWitness.
Import Posix Scenario.


End ConfinementWitness.

(* ===================================================================== *)
(** ** The order of the two phases *)
(* ===================================================================== *)

Section WhiteoutDeletions.
Context {world : Type} `{Sys world}.

Lemma loop_cons_trace_eq (h : header) (rest : list header)
    (rootfs_dir : string) (w : world) :
  h_status h = ARCHIVE_OK ->
  trace_of (apply_whiteouts_loop (h :: rest) rootfs_dir w) =
  marker_msg (pathname (h_entry h))
  ++ trace_of (handle (pathname (h_entry h)) rootfs_dir w)
  ++ match result_of (handle (pathname (h_entry h)) rootfs_dir w) with
     | Ret r =>
         if r =? 0 then
           trace_of (apply_whiteouts_loop rest rootfs_dir
                       (world_of (handle (pathname (h_entry h)) rootfs_dir w)))
         else []
     | Exit _ => []
     end.
Proof.
  intros Hok. cbn [apply_whiteouts_loop]. rewrite Hok. cbn [Z.eqb ARCHIVE_OK].
  unfold handle, marker_msg.
  destruct (contains _ "/.wh..wh..opq");
    [|destruct (contains _ "/.wh."); [|reflexivity]];
    rewrite !trace_bind;
    cbn [singularity_message emit result_of world_of trace_of fst snd app];
    f_equal; f_equal;
    (destruct (result_of _) as [r|c]; [|reflexivity]);
    destruct (r =? 0); reflexivity.
Qed.

(** The loop's trace, when it is not empty, starts with a message. *)
Lemma loop_trace_head (hs : list header) (rootfs_dir : string) (w : world) :
  match trace_of (apply_whiteouts_loop hs rootfs_dir w) with
  | [] => True
  | ev :: _ => is_message ev = true
  end.
Proof.
  revert w. induction hs as [|h hs IH]; intros w; [exact I|].
  destruct (Z.eq_dec (h_status h) ARCHIVE_OK) as [Hok|Hne].
  - rewrite (loop_cons_trace_eq _ _ _ _ Hok). unfold marker_msg, handle.
    destruct (contains _ "/.wh..wh..opq"); [reflexivity|].
    destruct (contains _ "/.wh."); [reflexivity|]. apply IH.
  - rewrite (loop_stops _ _ _ _ Hne). exact I.
Qed.

Lemma whiteout_deletions_ok_msg (ev : event) (t : list event) :
  is_message ev = true ->
  match t with [] => True | ev' :: _ => is_message ev' = true end ->
  whiteout_deletions_ok (ev :: t) = whiteout_deletions_ok t.
Proof.
  intros Hev Ht. destruct ev; try discriminate.
  destruct t as [|[] t]; try discriminate; reflexivity.
Qed.

(** A loop that returns 0 has had every deletion of [apply_whiteout]
    answer 0. *)
Lemma loop_whiteout_deletions_ok (hs : list header) (rootfs_dir : string)
    (w : world) :
  result_of (apply_whiteouts_loop hs rootfs_dir w) = Ret 0 ->
  whiteout_deletions_ok (trace_of (apply_whiteouts_loop hs rootfs_dir w)) = true.
Proof.
  revert w. induction hs as [|h hs IH]; intros w; [reflexivity|].
  destruct (Z.eq_dec (h_status h) ARCHIVE_OK) as [Hok|Hne];
    [|rewrite (loop_stops _ _ _ _ Hne); reflexivity].
  rewrite (loop_cons_result _ _ _ _ Hok), (loop_cons_trace_eq _ _ _ _ Hok).
  unfold marker_msg, handle.
  destruct (contains _ "/.wh..wh..opq") eqn:Ho.
  - rewrite apply_opaque_eq. destruct (opaque_dir _) as [q|]; [|discriminate].
    cbv zeta. destruct (is_dir _ w =? 0);
      cbn [result_of world_of trace_of fst snd Z.eqb app]; intros Hres;
      specialize (IH _ Hres); pose proof (loop_trace_head hs rootfs_dir) as Hh.
    + cbn [whiteout_deletions_ok is_whiteout_marker_msg String.eqb].
      cbn. specialize (Hh (snd (s_rmdir (under rootfs_dir q) w))).
      destruct (trace_of _) as [|[] t]; try discriminate Hh; exact IH.
    + rewrite whiteout_deletions_ok_msg; [exact IH|reflexivity|apply Hh].
  - destruct (contains _ "/.wh.") eqn:Hw; [|apply IH].
    rewrite apply_whiteout_eq. destruct (whiteout_path _) as [q|]; [|discriminate].
    cbv zeta. destruct (is_dir _ w =? 0).
    + cbn [result_of world_of trace_of fst snd app].
      destruct (fst (s_rmdir (under rootfs_dir q) w) =? 0) eqn:Hr;
        [|intros [= Hr']; rewrite Hr' in Hr; discriminate].
      intros Hres. specialize (IH _ Hres).
      pose proof (loop_trace_head hs rootfs_dir
                    (snd (s_rmdir (under rootfs_dir q) w))) as Hh.
      cbn. rewrite Hr.
      destruct (trace_of _) as [|[] t]; try discriminate Hh; exact IH.
    + destruct (is_file _ w =? 0).
      * cbn [result_of world_of trace_of fst snd app].
        destruct (fst (unlink (under rootfs_dir q) w) =? 0) eqn:Hr;
          [|intros [= Hr']; rewrite Hr' in Hr; discriminate].
        intros Hres. specialize (IH _ Hres).
        pose proof (loop_trace_head hs rootfs_dir
                      (snd (unlink (under rootfs_dir q) w))) as Hh.
        cbn. rewrite Hr.
        destruct (trace_of _) as [|[] t]; try discriminate Hh; exact IH.
      * cbn [result_of world_of trace_of fst snd Z.eqb app]. intros Hres.
        rewrite whiteout_deletions_ok_msg;
          [exact (IH _ Hres)|reflexivity|apply loop_trace_head].
Qed.

Lemma apply_whiteouts_deletions_ok (tarfile rootfs_dir : string) (w : world) :
  result_of (apply_whiteouts tarfile rootfs_dir w) = Ret 0 ->
  whiteout_deletions_ok (trace_of (apply_whiteouts tarfile rootfs_dir w)) = true.
Proof.
  intros Hres. destruct (apply_whiteouts_result _ _ _ Hres) as [Hopen Hloop].
  revert Hres. unfold apply_whiteouts.
  rewrite bind_ask. rewrite result_bind, trace_bind.
  cbn [emit result_of world_of trace_of fst snd]. rewrite Hopen.
  cbn [negb Z.eqb ARCHIVE_OK]. rewrite result_bind, trace_bind, Hloop.
  pose proof (loop_whiteout_deletions_ok _ _ _ Hloop) as Hok.
  pose proof (loop_trace_head
                (headers (snd (archive_read_open_filename tarfile w)))
                rootfs_dir w) as Hh.
  destruct (negb (free_status _ =? ARCHIVE_OK)).
  - rewrite result_bind. discriminate.
  - intros _. cbn [ret trace_of snd app]. rewrite app_nil_r.
    destruct (trace_of _) as [|[] t]; try discriminate Hh; exact Hok.
Qed.

End WhiteoutDeletions.

Section PhaseOrder.
Context {world : Type} `{Sys world}.


End PhaseOrder.

Section PhaseOrderWitness.
Import Posix Scenario.


End PhaseOrderWitness.
(* ===================================================================== *)
(** ** More on the extractor: data blocks and entries *)
(* ===================================================================== *)

Section ExtractorData.
Context {world : Type} `{Sys world}.

Lemma data_written_app (t1 t2 : list event) :
  data_written (t1 ++ t2) = data_written t1 ++ data_written t2.
Proof.
  induction t1 as [|ev t1 IH]; [reflexivity|].
  destruct ev; cbn [app data_written]; rewrite IH; reflexivity.
Qed.

Lemma headers_written_app (t1 t2 : list event) :
  headers_written (t1 ++ t2) = headers_written t1 ++ headers_written t2.
Proof.
  induction t1 as [|ev t1 IH]; [reflexivity|].
  destruct ev; cbn [app headers_written]; rewrite IH; reflexivity.
Qed.

(** One round of [copy_data]'s loop on a block that is read without
    error. *)
Lemma copy_data_cons (b : block) (rest : list block) (w : world) :
  b_status b <> ARCHIVE_EOF -> ARCHIVE_OK <= b_status b ->
  let wr := archive_write_data_block (b_buff b) (b_offset b) w in
  copy_data (b :: rest) w =
  if fst wr <? ARCHIVE_OK then
    (Ret (fst wr), snd wr,
     [EvWriteData (b_buff b) (b_offset b) (fst wr);
      EvMessage ERROR "tar extraction error: %s\n" []])
  else
    (result_of (copy_data rest (snd wr)), world_of (copy_data rest (snd wr)),
     EvWriteData (b_buff b) (b_offset b) (fst wr)
     :: trace_of (copy_data rest (snd wr))).
Proof.
  intros Heof Hok. cbv zeta. cbn [copy_data].
  apply Z.eqb_neq in Heof. rewrite Heof.
  apply Z.ltb_ge in Hok. rewrite Hok.
  unfold bind at 1. rewrite call_run.
  destruct (fst (archive_write_data_block _ _ w) <? ARCHIVE_OK).
  - reflexivity.
  - destruct (copy_data rest _) as [[o w2] t2]. reflexivity.
Qed.

Lemma copy_data_stops (b : block) (rest : list block) (w : world) :
  b_status b = ARCHIVE_EOF \/ b_status b < ARCHIVE_OK ->
  copy_data (b :: rest) w =
  (Ret (if b_status b =? ARCHIVE_EOF then ARCHIVE_OK else b_status b), w, []).
Proof.
  intros Hb. cbn [copy_data]. destruct (b_status b =? ARCHIVE_EOF) eqn:He;
    [reflexivity|].
  apply Z.eqb_neq in He. destruct Hb as [Hb|Hb]; [congruence|].
  apply Z.ltb_lt in Hb. rewrite Hb. reflexivity.
Qed.

Lemma block_status_cases (b : block) :
  (b_status b = ARCHIVE_EOF \/ b_status b < ARCHIVE_OK)
  \/ (b_status b <> ARCHIVE_EOF /\ ARCHIVE_OK <= b_status b).
Proof. unfold ARCHIVE_EOF, ARCHIVE_OK. lia. Qed.

(** X1: [copy_data] hands the data blocks to the writer in the order they
    are read, none twice and none skipped: what it has written is a prefix
    of the entry's blocks. *)
Theorem copy_data_writes_a_prefix (bs : list block) (w : world) :
  data_written (trace_of (copy_data bs w)) `prefix_of` map block_data bs.
Proof.
  revert w. induction bs as [|b bs IH]; intros w; [reflexivity|].
  destruct (block_status_cases b) as [Hstop|[Heof Hok]].
  - rewrite (copy_data_stops _ _ _ Hstop). apply prefix_nil.
  - rewrite (copy_data_cons _ _ _ Heof Hok). cbv zeta.
    destruct (fst _ <? ARCHIVE_OK); cbn [trace_of snd data_written map].
    + apply prefix_cons, prefix_nil.
    + apply prefix_cons, IH.
Qed.

(** X2: [copy_data] never ends the process; it returns [ARCHIVE_OK] or a
    negative status, and when it returns [ARCHIVE_OK] every write it made
    had succeeded. *)
Theorem copy_data_returns_ok_or_error (bs : list block) (w : world) :
  exists r, result_of (copy_data bs w) = Ret r
            /\ r <= ARCHIVE_OK
            /\ (r = ARCHIVE_OK ->
                Forall (fun ev => forall buff offset ret,
                          ev = EvWriteData buff offset ret -> ARCHIVE_OK <= ret)
                       (trace_of (copy_data bs w))).
Proof.
  revert w. induction bs as [|b bs IH]; intros w.
  - exists ARCHIVE_OK. repeat apply conj; [reflexivity|reflexivity|constructor].
  - destruct (block_status_cases b) as [Hstop|[Heof Hok]].
    + rewrite (copy_data_stops _ _ _ Hstop). eexists.
      repeat apply conj; [reflexivity| |constructor].
      destruct Hstop as [->|Hlt]; [reflexivity|].
      destruct (b_status b =? ARCHIVE_EOF); [reflexivity|lia].
    + rewrite (copy_data_cons _ _ _ Heof Hok). cbv zeta.
      destruct (fst _ <? ARCHIVE_OK) eqn:Hw.
      * apply Z.ltb_lt in Hw. eexists.
        repeat apply conj; [reflexivity|lia|]. intros Hr. lia.
      * apply Z.ltb_ge in Hw.
        destruct (IH (snd (archive_write_data_block (b_buff b) (b_offset b) w)))
          as (r & Hr & Hle & Hall).
        exists r. repeat apply conj; [exact Hr|exact Hle|].
        intros H0. constructor; [|exact (Hall H0)].
        intros buff offset ret [= _ _ <-]. exact Hw.
Qed.

End ExtractorData.
Section ExtractorEntries.
Context {world : Type} `{Sys world}.

Lemma copy_data_no_header (bs : list block) (w : world) :
  headers_written (trace_of (copy_data bs w)) = [].
Proof.
  revert w. induction bs as [|b bs IH]; intros w; [reflexivity|].
  destruct (block_status_cases b) as [Hstop|[Heof Hok]].
  - rewrite (copy_data_stops _ _ _ Hstop). reflexivity.
  - rewrite (copy_data_cons _ _ _ Heof Hok). cbv zeta.
    destruct (fst _ <? ARCHIVE_OK); cbn [trace_of snd headers_written];
      [reflexivity|apply IH].
Qed.

Lemma no_data_written (t : list event) :
  Forall (fun ev => forall b o r, ev <> EvWriteData b o r) t ->
  data_written t = [].
Proof.
  induction 1 as [|ev t Hev _ IH]; [reflexivity|].
  destruct ev; cbn [data_written]; try exact IH. destruct (Hev _ _ _ eq_refl).
Qed.

Lemma no_header_written (t : list event) :
  Forall (fun ev => forall e r, ev <> EvWriteHeader e r) t ->
  headers_written t = [].
Proof.
  induction 1 as [|ev t Hev _ IH]; [reflexivity|].
  destruct ev; cbn [headers_written]; try exact IH. destruct (Hev _ _ eq_refl).
Qed.

(** [extract_entry] after its first call. *)
Lemma extract_entry_run (e : entry) (w : world) :
  let wh := archive_write_header e w in
  exists k : @M world unit,
    trace_of (extract_entry e w)
    = EvWriteHeader e (fst wh) :: trace_of (k (snd wh))
    /\ result_of (extract_entry e w) = result_of (k (snd wh))
    /\ emits (fun ev => forall e' r, ev <> EvWriteHeader e' r) k
    /\ (fst wh < ARCHIVE_OK \/ size e <= 0 ->
        emits (fun ev => forall b o r, ev <> EvWriteData b o r) k).
Proof.
  cbv zeta. unfold extract_entry. eexists. repeat apply conj.
  - rewrite trace_bind, call_run. cbn [result_of world_of trace_of fst snd app].
    reflexivity.
  - rewrite result_bind, call_run. cbn [result_of world_of fst snd]. reflexivity.
  - assert (forall bs, emits (fun ev => forall e' r, ev <> EvWriteHeader e' r)
                             (@copy_data world _ bs)) as Hc.
    { intros bs w'. pose proof (copy_data_no_header bs w') as Hn.
      induction (trace_of (copy_data bs w')) as [|ev t IH]; [constructor|].
      destruct ev; cbn [headers_written] in Hn; try discriminate;
        (constructor; [discriminate|exact (IH Hn)]). }
    emits_walk; discriminate.
  - intros Hcase.
    destruct (fst (archive_write_header e w) <? ARCHIVE_OK) eqn:Hr.
    + emits_walk; discriminate.
    + apply Z.ltb_ge in Hr. destruct Hcase as [Hlt|Hsz]; [lia|].
      assert ((size e >? 0) = false) as -> by lia.
      emits_walk; discriminate.
Qed.

Lemma extract_entry_one_header (e : entry) (w : world) :
  headers_written (trace_of (extract_entry e w)) = [e].
Proof.
  destruct (extract_entry_run e w) as (k & Ht & _ & Hh & _). rewrite Ht.
  cbn [headers_written]. f_equal. apply no_header_written, Hh.
Qed.

(** X3: one header is handed to the writer per extracted entry; when that
    call fails, or the entry's size is not positive, no data block is
    written for the entry. *)
Theorem extract_entry_header_then_data (e : entry) (w : world) :
  headers_written (trace_of (extract_entry e w)) = [e]
  /\ (fst (archive_write_header e w) < ARCHIVE_OK \/ size e <= 0 ->
      data_written (trace_of (extract_entry e w)) = []).
Proof.
  destruct (extract_entry_run e w) as (k & Ht & _ & Hh & Hd). rewrite Ht.
  cbn [headers_written data_written]. split.
  - f_equal. apply no_header_written, Hh.
  - intros Hcase. apply no_data_written, (Hd Hcase).
Qed.

End ExtractorEntries.
Section ExtractorLoop.
Context {world : Type} `{Sys world}.

Lemma extract_loop_eof (h : header) (rest : list header) (w : world) :
  h_status h = ARCHIVE_EOF -> extract_loop (h :: rest) w = (Ret tt, w, []).
Proof. intros He. cbn [extract_loop]. rewrite He. reflexivity. Qed.

Lemma extract_loop_fatal (h : header) (rest : list header) (w : world) :
  h_status h < ARCHIVE_WARN ->
  extract_loop (h :: rest) w =
  (Exit 255, w,
   [EvMessage WARNING "Warning reading tar header: %s\n" [];
    EvMessage ERROR "Error reading tar header: %s\n" []]).
Proof.
  intros Hf. cbn [extract_loop].
  assert ((h_status h =? ARCHIVE_EOF) = false) as ->
    by (apply Z.eqb_neq; unfold ARCHIVE_EOF, ARCHIVE_WARN in *; lia).
  assert ((h_status h <? ARCHIVE_OK) = true) as ->
    by (apply Z.ltb_lt; unfold ARCHIVE_OK, ARCHIVE_WARN in *; lia).
  assert ((h_status h <? ARCHIVE_WARN) = true) as -> by (apply Z.ltb_lt; exact Hf).
  reflexivity.
Qed.

(** X4: a header read with a status below [ARCHIVE_WARN] ends the process
    with status 255 after a warning and an error message, in the world as
    it was; neither that entry nor any later one reaches the writer. *)
Theorem extract_loop_fatal_header (h : header) (rest : list header) (w : world) :
  h_status h < ARCHIVE_WARN ->
  result_of (extract_loop (h :: rest) w) = Exit 255
  /\ world_of (extract_loop (h :: rest) w) = w
  /\ headers_written (trace_of (extract_loop (h :: rest) w)) = []
  /\ Forall (fun ev => is_message ev = true)
            (trace_of (extract_loop (h :: rest) w)).
Proof.
  intros Hf. rewrite (extract_loop_fatal _ _ _ Hf).
  repeat apply conj; try reflexivity. repeat constructor.
Qed.

(** One round of the extractor's loop on a header it goes on with. *)
Lemma extract_loop_cons (h : header) (rest : list header) (w : world) :
  h_status h <> ARCHIVE_EOF -> ARCHIVE_WARN <= h_status h ->
  let warning :=
    if h_status h <? ARCHIVE_OK
    then [EvMessage WARNING "Warning reading tar header: %s\n" []] else [] in
  let step :=
    if skipped (h_entry h) then extract_loop rest
    else extract_entry (h_entry h) ;;; extract_loop rest in
  extract_loop (h :: rest) w
  = (result_of (step w), world_of (step w), warning ++ trace_of (step w)).
Proof.
  intros He Hw. cbv zeta. cbn [extract_loop].
  apply Z.eqb_neq in He. rewrite He.
  apply Z.ltb_ge in Hw. rewrite Hw.
  unfold bind at 1. destruct (h_status h <? ARCHIVE_OK);
    cbn [singularity_message emit ret app];
    unfold bind at 1; cbn [ret app];
    match goal with
    | |- context [match ?x with _ => _ end] =>
        destruct x as [[o w2] t2]; reflexivity
    end.
Qed.

Lemma header_status_cases (h : header) :
  h_status h = ARCHIVE_EOF
  \/ h_status h < ARCHIVE_WARN
  \/ (h_status h <> ARCHIVE_EOF /\ ARCHIVE_WARN <= h_status h).
Proof. unfold ARCHIVE_EOF, ARCHIVE_WARN. lia. Qed.

(** X5: the extractor hands entries to the writer in archive order, each at
    most once, and only entries that pass the test of line 250; when it
    returns from a layer none of whose headers is an end of archive, every
    such entry has been handed over. *)
Theorem extractor_writes_entries_in_order (hs : list header) (w : world) :
  let kept := filter (fun e => skipped e = false) (map h_entry hs) in
  headers_written (trace_of (extract_loop hs w)) `prefix_of` kept
  /\ (result_of (extract_loop hs w) = Ret tt ->
      Forall (fun h => h_status h <> ARCHIVE_EOF) hs ->
      headers_written (trace_of (extract_loop hs w)) = kept).
Proof.
  cbv zeta. revert w. induction hs as [|h hs IH]; intros w.
  { split; [reflexivity|]. intros _ _. reflexivity. }
  destruct (header_status_cases h) as [He|[Hf|[He Hw]]].
  - rewrite (extract_loop_eof _ _ _ He). split; [apply prefix_nil|].
    intros _ Hall. apply Forall_cons in Hall as [Hne _]. congruence.
  - rewrite (extract_loop_fatal _ _ _ Hf). split; [apply prefix_nil|].
    discriminate.
  - rewrite (extract_loop_cons _ _ _ He Hw). cbv zeta.
    cbn [result_of world_of trace_of fst snd map].
    rewrite headers_written_app.
    assert (headers_written
              (if h_status h <? ARCHIVE_OK
               then [EvMessage WARNING "Warning reading tar header: %s\n" []]
               else []) = []) as -> by (destruct (_ <? _); reflexivity).
    cbn [app]. rewrite filter_cons.
    destruct (skipped (h_entry h)) eqn:Hs.
    + rewrite decide_False by discriminate.
      destruct (IH w) as [Hp Heq]. split; [exact Hp|].
      intros Hr Hall. apply Forall_cons in Hall as [_ Hall]. auto.
    + rewrite decide_True by reflexivity.
      rewrite trace_bind, result_bind, headers_written_app.
      rewrite (extract_entry_one_header (h_entry h) w).
      cbn [app].
      destruct (result_of (extract_entry (h_entry h) w)) as [[]|c].
      * destruct (IH (world_of (extract_entry (h_entry h) w))) as [Hp Heq].
        split; [apply prefix_cons, Hp|].
        intros Hr Hall. apply Forall_cons in Hall as [_ Hall].
        f_equal. auto.
      * split; [apply prefix_cons, prefix_nil|discriminate].
Qed.

End ExtractorLoop.
(* ===================================================================== *)
(** ** More on the scanner *)
(* ===================================================================== *)

Section ScannerMore.
Context {world : Type} `{Sys world}.

Lemma loop_cons_run (h : header) (rest : list header) (rootfs_dir : string)
    (w : world) :
  h_status h = ARCHIVE_OK ->
  let x := handle (pathname (h_entry h)) rootfs_dir w in
  let continues :=
    match result_of x with Ret r => r =? 0 | Exit _ => false end in
  apply_whiteouts_loop (h :: rest) rootfs_dir w =
  if continues then
    (result_of (apply_whiteouts_loop rest rootfs_dir (world_of x)),
     world_of (apply_whiteouts_loop rest rootfs_dir (world_of x)),
     marker_msg (pathname (h_entry h)) ++ trace_of x
     ++ trace_of (apply_whiteouts_loop rest rootfs_dir (world_of x)))
  else (result_of x, world_of x,
        marker_msg (pathname (h_entry h)) ++ trace_of x).
Proof.
  intros Hok. cbv zeta.
  rewrite (run_eta (apply_whiteouts_loop (h :: rest) rootfs_dir w)).
  rewrite (loop_cons_result _ _ _ _ Hok), (loop_cons_world _ _ _ _ Hok),
    (loop_cons_trace_eq _ _ _ _ Hok).
  destruct (result_of (handle _ _ w)) as [r|c];
    [destruct (r =? 0)|]; rewrite ?app_nil_r; reflexivity.
Qed.

(** X6: the scanner stops at the first header that is not read with
    [ARCHIVE_OK], a warning included, without reporting it: the entries
    after it are not looked at, whatever they are. *)
Theorem scanner_stops_at_first_unread_header
    (pre post : list header) (h : header) (rootfs_dir : string) (w : world) :
  h_status h <> ARCHIVE_OK ->
  apply_whiteouts_loop (pre ++ h :: post) rootfs_dir w
  = apply_whiteouts_loop pre rootfs_dir w.
Proof.
  intros Hne. revert w. induction pre as [|h0 pre IH]; intros w; cbn [app].
  - apply loop_stops, Hne.
  - destruct (Z.eq_dec (h_status h0) ARCHIVE_OK) as [Hok|Hne0].
    + rewrite !(loop_cons_run _ _ _ _ Hok). cbv zeta. rewrite IH. reflexivity.
    + rewrite !(loop_stops _ _ _ _ Hne0). reflexivity.
Qed.

Lemma prefix_app_l (a b t : string) :
  String.prefix (a +:+ b) t = true -> String.prefix a t = true.
Proof.
  revert t. induction a as [|x a IH]; intros t; cbn [String.append].
  - intros _. destruct t; reflexivity.
  - destruct t as [|y t]; cbn [String.prefix]; [discriminate|].
    destruct (ascii_dec x y); [apply IH|discriminate].
Qed.

Lemma contains_shorter_needle (p a b : string) :
  contains p (a +:+ b) = true -> contains p a = true.
Proof.
  unfold contains.
  destruct (strstr p (a +:+ b)) as [t|] eqn:Hs; [intros _|discriminate].
  destruct (strstr_length _ _ _ Hs) as (Hp & _ & Hsplit).
  apply prefix_app_l in Hp.
  pose proof (strstr_app_prefix (before p t) a t Hp) as Hne.
  rewrite <- Hsplit in Hne. destruct (strstr p a); [reflexivity|congruence].
Qed.

Lemma contains_opq_wh (p : string) :
  contains p "/.wh..wh..opq" = true -> contains p "/.wh." = true.
Proof. apply (contains_shorter_needle p "/.wh." ".wh..opq"). Qed.

(** X7: the two passes agree on what a marker is: the scanner derives a
    target for a pathname exactly when the extractor skips the entry for
    its pathname. *)
Theorem scanner_and_extractor_agree_on_markers (p : string) :
  (exists q, derived p = Some q) <-> contains p "/.wh." = true.
Proof.
  unfold derived. split.
  - intros [q Hq]. destruct (contains p "/.wh..wh..opq") eqn:Ho.
    + apply contains_opq_wh, Ho.
    + destruct (contains p "/.wh."); [reflexivity|discriminate].
  - intros Hw. destruct (contains p "/.wh..wh..opq") eqn:Ho.
    + apply (contains_slash _ _ Ho).
    + rewrite Hw. apply contains_wh, Hw.
Qed.

(** X8: a layer none of whose pathnames contains [/.wh.] goes through the
    scanner without a call or a message: the result is 0 and the world is
    as it was. *)
Theorem scanner_ignores_layer_without_markers
    (hs : list header) (rootfs_dir : string) (w : world) :
  Forall (fun h => contains (pathname (h_entry h)) "/.wh." = false) hs ->
  apply_whiteouts_loop hs rootfs_dir w = (Ret 0, w, []).
Proof.
  induction 1 as [|h hs Hh _ IH]; [reflexivity|].
  cbn [apply_whiteouts_loop]. destruct (h_status h =? ARCHIVE_OK); [|reflexivity].
  destruct (contains (pathname (h_entry h)) "/.wh..wh..opq") eqn:Ho.
  - apply contains_opq_wh in Ho. congruence.
  - rewrite Hh. exact IH.
Qed.

Lemma loop_returns (hs : list header) (rootfs_dir : string) (w : world) :
  exists r, result_of (apply_whiteouts_loop hs rootfs_dir w) = Ret r.
Proof.
  revert w. induction hs as [|h hs IH]; intros w; [exists 0; reflexivity|].
  destruct (Z.eq_dec (h_status h) ARCHIVE_OK) as [Hok|Hne].
  - rewrite (loop_cons_result _ _ _ _ Hok).
    destruct (handle_returns (pathname (h_entry h)) rootfs_dir w) as [r ->].
    destruct (r =? 0); [apply IH|eauto].
  - rewrite (loop_stops _ _ _ _ Hne). exists 0. reflexivity.
Qed.

(** X9: the [ABORT]s of [apply_opaque] and [apply_whiteout] are never
    reached from [apply_whiteouts]: its loop always returns, and
    [apply_whiteouts] ends the process only when the archive was opened and
    [archive_read_free] fails, with status 255. *)
Theorem scanner_exits_only_when_free_fails
    (tarfile rootfs_dir : string) (w : world) :
  (forall hs, exists r,
      result_of (apply_whiteouts_loop hs rootfs_dir w) = Ret r)
  /\ (forall c, result_of (apply_whiteouts tarfile rootfs_dir w) = Exit c ->
        c = 255
        /\ fst (archive_read_open_filename tarfile w) = ARCHIVE_OK
        /\ free_status (snd (archive_read_open_filename tarfile w))
           <> ARCHIVE_OK).
Proof.
  split; [intros hs; apply loop_returns|].
  unfold apply_whiteouts. rewrite bind_ask, result_bind.
  cbn [emit result_of world_of fst snd].
  destruct (fst (archive_read_open_filename tarfile w) =? ARCHIVE_OK) eqn:Ho;
    cbn [negb]; [|discriminate].
  apply Z.eqb_eq in Ho. rewrite result_bind.
  destruct (loop_returns (headers (snd (archive_read_open_filename tarfile w)))
                         rootfs_dir w) as [r ->].
  destruct (free_status _ =? ARCHIVE_OK) eqn:Hf; cbn [negb]; [discriminate|].
  apply Z.eqb_neq in Hf. rewrite result_bind.
  cbn [singularity_message emit result_of world_of fst snd ABORT exit_with].
  intros c [= <-]. auto.
Qed.

(** X10: when the archive cannot be opened, [apply_whiteouts] returns 1
    without touching anything; it does not end the process itself. *)
Theorem apply_whiteouts_open_failure (tarfile rootfs_dir : string) (w : world) :
  fst (archive_read_open_filename tarfile w) <> ARCHIVE_OK ->
  apply_whiteouts tarfile rootfs_dir w
  = (Ret 1, w, [EvOpen tarfile (fst (archive_read_open_filename tarfile w))]).
Proof.
  intros Hne. unfold apply_whiteouts. rewrite bind_ask.
  apply Z.eqb_neq in Hne. unfold bind at 1. cbn [emit]. rewrite Hne.
  reflexivity.
Qed.

(** X11: when [archive_read_free] fails after the scan, the process ends
    with status 255 whatever the scan returned, in the world the scan has
    left: the deletions have been made. *)
Theorem apply_whiteouts_free_failure (tarfile rootfs_dir : string) (w : world) :
  let a := snd (archive_read_open_filename tarfile w) in
  fst (archive_read_open_filename tarfile w) = ARCHIVE_OK ->
  free_status a <> ARCHIVE_OK ->
  result_of (apply_whiteouts tarfile rootfs_dir w) = Exit 255
  /\ world_of (apply_whiteouts tarfile rootfs_dir w)
     = world_of (apply_whiteouts_loop (headers a) rootfs_dir w)
  /\ trace_of (apply_whiteouts tarfile rootfs_dir w)
     = EvOpen tarfile ARCHIVE_OK
       :: trace_of (apply_whiteouts_loop (headers a) rootfs_dir w)
       ++ [EvMessage ERROR "Error freeing archive\n" []].
Proof.
  cbv zeta. intros Ho Hf. split; [|split].
  - unfold apply_whiteouts. rewrite bind_ask, result_bind.
    cbn [emit result_of world_of fst snd]. rewrite Ho. cbn [negb Z.eqb ARCHIVE_OK].
    rewrite result_bind.
    destruct (loop_returns (headers (snd (archive_read_open_filename tarfile w)))
                           rootfs_dir w) as [r ->].
    apply Z.eqb_neq in Hf. rewrite Hf. reflexivity.
  - rewrite apply_whiteouts_world, Ho. reflexivity.
  - unfold apply_whiteouts. rewrite bind_ask, trace_bind.
    cbn [emit result_of world_of trace_of fst snd]. rewrite Ho.
    cbn [negb Z.eqb ARCHIVE_OK app]. f_equal. rewrite trace_bind. f_equal.
    destruct (loop_returns (headers (snd (archive_read_open_filename tarfile w)))
                           rootfs_dir w) as [r ->].
    apply Z.eqb_neq in Hf. rewrite Hf. reflexivity.
Qed.

End ScannerMore.
(* ===================================================================== *)
(** ** More on the two handlers' paths *)
(* ===================================================================== *)

Section HandlerPaths.
Context {world : Type} `{Sys world}.

(** X12: [apply_whiteout] on a marker that contains [.wh.] acts on one
    path, the rootfs, [/], and the marker with its first [.wh.] cut out,
    none of its buffers cutting it short: it calls [s_rmdir] when [is_dir]
    accepts the path, else [unlink] when [is_file] accepts it, and returns
    that call's status; otherwise it does nothing and returns 0. *)
Theorem apply_whiteout_on_marker (wh_marker token rootfs_dir : string) (w : world) :
  strstr wh_marker ".wh." = Some token ->
  let p := rootfs_dir +:+ "/" +:+ before wh_marker token +:+ drop_str 4 token in
  strlen p = (strlen rootfs_dir + 1 + (strlen wh_marker - 4))%nat
  /\ (is_dir p w = 0 ->
      apply_whiteout wh_marker rootfs_dir w
      = (Ret (fst (s_rmdir p w)), snd (s_rmdir p w),
         [EvRmdir p (fst (s_rmdir p w))]))
  /\ (is_dir p w <> 0 -> is_file p w = 0 ->
      apply_whiteout wh_marker rootfs_dir w
      = (Ret (fst (unlink p w)), snd (unlink p w),
         [EvMessage DEBUG "Removing whiteout-ed file: %s\n" [p];
          EvUnlink p (fst (unlink p w))]))
  /\ (is_dir p w <> 0 -> is_file p w <> 0 ->
      apply_whiteout wh_marker rootfs_dir w = (Ret 0, w, [])).
Proof.
  intros Hs. cbv zeta.
  destruct (strstr_length _ _ _ Hs) as (Hp & Hle & _).
  apply prefix_strlen in Hp. change (strlen ".wh.") with 4%nat in Hp.
  pose proof (apply_whiteout_eq wh_marker rootfs_dir w) as Heq.
  unfold whiteout_path, under in Heq. rewrite Hs in Heq. cbv zeta in Heq.
  repeat apply conj.
  - rewrite !strlen_app, strlen_before, strlen_drop_str.
    change (strlen "/") with 1%nat. lia.
  - intros Hd. rewrite Heq, Hd. reflexivity.
  - intros Hd Hf. rewrite Heq, Hf. apply Z.eqb_neq in Hd. rewrite Hd. reflexivity.
  - intros Hd Hf. rewrite Heq. apply Z.eqb_neq in Hd, Hf. rewrite Hd, Hf.
    reflexivity.
Qed.

Lemma strrchr_last (s token : string) (c : ascii) :
  strrchr s c = Some token ->
  exists base, token = String c base /\ strrchr base c = None.
Proof.
  revert token. induction s as [|a s IH]; intros token; cbn [strrchr];
    [discriminate|].
  destruct (strrchr s c) as [t|] eqn:Hr.
  - intros [= <-]. apply IH. reflexivity.
  - destruct (Ascii.eqb a c) eqn:Hac; [|discriminate]. intros [= <-].
    apply Ascii.eqb_eq in Hac. subst a. eauto.
Qed.

Lemma strrchr_none (s : string) (c : ascii) :
  strrchr s c = None -> contains s (String c "") = false.
Proof.
  unfold contains. induction s as [|a s IH]; cbn [strrchr]; [reflexivity|].
  destruct (strrchr s c); [discriminate|].
  destruct (Ascii.eqb a c) eqn:Hac; [discriminate|]. intros _.
  rewrite strstr_unfold. cbn [String.prefix].
  destruct (ascii_dec c a) as [->|_].
  - rewrite Ascii.eqb_refl in Hac. discriminate.
  - apply IH. reflexivity.
Qed.

(** X13: the directory [apply_opaque] removes is the marker's directory
    part: the pathname is that directory, a [/], and a last component
    without [/]. *)
Theorem opaque_dir_is_the_directory_part (opq_marker q : string) :
  opaque_dir opq_marker = Some q ->
  exists base, opq_marker = q +:+ "/" +:+ base /\ contains base "/" = false.
Proof.
  unfold opaque_dir.
  destruct (strrchr opq_marker "/") as [token|] eqn:Hs; [|discriminate].
  intros [= <-]. destruct (strrchr_last _ _ _ Hs) as (base & -> & Hnone).
  destruct (strrchr_length _ _ _ Hs) as (_ & _ & Hsplit).
  exists base. split; [exact Hsplit|apply strrchr_none, Hnone].
Qed.

(** X14: for a marker [dir/.wh.name] whose [dir] holds no [.wh.] and that
    is not taken for an opaque marker, the scanner's target is
    [dir/name]. *)
Theorem target_of_named_marker (dir name : string) :
  contains dir ".wh." = false ->
  contains (dir +:+ "/.wh." +:+ name) "/.wh..wh..opq" = false ->
  derived (dir +:+ "/.wh." +:+ name) = Some (dir +:+ "/" +:+ name).
Proof.
  intros Hdir Ho. unfold derived. rewrite Ho, contains_named.
  apply whiteout_path_named, Hdir.
Qed.

End HandlerPaths.

(* ===================================================================== *)
(** ** More on [main] and [extract_tar] *)
(* ===================================================================== *)

Section MainMore.
Context {world : Type} `{Sys world}.

(** X15: the process ends with status 0 or 255, nothing else. *)
Theorem main_exit_status (argc : Z) (argv : list string) (w : world) :
  exit_status (result_of (main argc argv w)) = 0
  \/ exit_status (result_of (main argc argv w)) = 255.
Proof.
  assert (returns (fun r => r = 0) (main argc argv)) as Hm.
  { pose proof apply_whiteouts_returns as Hw.
    unfold main.
    apply returns_bind; [returns_walk|intros rootfs].
    destruct (negb (argc =? 2)); [returns_walk|].
    destruct rootfs as [rootfs_dir|]; [|returns_walk].
    apply returns_bind; [returns_walk|intros d].
    destruct (d <? 0); [returns_walk|].
    apply returns_bind; [returns_walk|intros f].
    destruct (f <? 0); [returns_walk|].
    apply returns_bind; [returns_walk|intros _].
    apply returns_bind; [apply Hw|intros retval].
    destruct (negb (retval =? 0)); [returns_walk|].
    apply returns_bind; [returns_walk|intros _].
    intros w'. rewrite result_bind.
    pose proof (extract_tar_returns (nth 1 argv ""%string) rootfs_dir w') as He.
    destruct (result_of (extract_tar _ _ w')) as [r|c]; [|exact He].
    subst r. reflexivity. }
  specialize (Hm w). destruct (result_of (main argc argv w)) as [r|c];
    cbn [exit_status]; auto.
Qed.

(** X16: a wrong argument count, a missing ROOTFS or a rootfs that [is_dir]
    rejects ends the process with status 255 before anything is opened or
    changed. *)
Theorem main_rejects_bad_invocation (argc : Z) (argv : list string) (w : world) :
  argc <> 2
  \/ singularity_registry_get "ROOTFS" w = None
  \/ (exists rootfs_dir, singularity_registry_get "ROOTFS" w = Some rootfs_dir
                         /\ is_dir rootfs_dir w < 0) ->
  result_of (main argc argv w) = Exit 255
  /\ world_of (main argc argv w) = w
  /\ Forall (fun ev => is_message ev = true) (trace_of (main argc argv w)).
Proof.
  intros Hbad.
  destruct (main_checks argc argv w)
    as [(Hr & Hw & Ht & _)|(rootfs_dir & Hargc & Hreg & Hd & _)]; [auto|].
  exfalso. destruct Hbad as [Hb|[Hb|(r' & Hb & Hlt)]]; [congruence|congruence|].
  assert (r' = rootfs_dir) as -> by congruence. lia.
Qed.

(** X17: the two phases do not mix: the whiteout phase sets no option,
    changes no directory and writes nothing; the extraction phase calls
    neither [s_rmdir] nor [unlink]. *)
Theorem phases_do_not_mix (tarfile rootfs_dir : string) (w : world) :
  Forall (fun ev => is_extraction ev = false)
         (trace_of (apply_whiteouts tarfile rootfs_dir w))
  /\ Forall (fun ev => is_deletion ev = false)
            (trace_of (extract_tar tarfile rootfs_dir w)).
Proof.
  split.
  - eapply Forall_impl; [apply apply_whiteouts_log|]. intros ev [Hx _]. exact Hx.
  - eapply Forall_impl; [apply extract_tar_log|]. intros ev [Hx _]. exact Hx.
Qed.

End MainMore.
Section ExtractTarMore.
Context {world : Type} `{Sys world}.

(** [extract_tar], call by call. *)
Lemma extract_tar_run (tarfile rootfs_dir : string) (w : world) :
  let orig_dir := get_current_dir_name w in
  let w1 := snd (archive_write_disk_set_options extract_flags w) in
  let opened := archive_read_open_filename tarfile w1 in
  let cd := chdir rootfs_dir w1 in
  let body := extract_loop (headers (snd opened)) (snd cd) in
  let back := chdir orig_dir (world_of body) in
  extract_tar tarfile rootfs_dir w =
  if negb (fst opened =? 0) then
    (Exit 255, w1,
     [EvOptions extract_flags; EvOpen tarfile (fst opened);
      EvMessage ERROR "Error opening tar file %s\n" [tarfile]])
  else if fst cd <? 0 then
    (Exit 255, snd cd,
     [EvOptions extract_flags; EvOpen tarfile (fst opened);
      EvChdir rootfs_dir (fst cd);
      EvMessage ERROR "Could not chdir to SINGULARITY_ROOTFS %s\n" [rootfs_dir]])
  else
    match result_of body with
    | Exit c =>
        (Exit c, world_of body,
         [EvOptions extract_flags; EvOpen tarfile (fst opened);
          EvChdir rootfs_dir (fst cd)] ++ trace_of body)
    | Ret _ =>
        if fst back <? 0 then
          (Exit 255, snd back,
           [EvOptions extract_flags; EvOpen tarfile (fst opened);
            EvChdir rootfs_dir (fst cd)] ++ trace_of body
           ++ [EvChdir orig_dir (fst back);
               EvMessage ERROR "Could not chdir back to %s\n" [orig_dir]])
        else
          (Ret 0, snd back,
           [EvOptions extract_flags; EvOpen tarfile (fst opened);
            EvChdir rootfs_dir (fst cd)] ++ trace_of body
           ++ [EvChdir orig_dir (fst back)])
    end.
Proof.
  cbv zeta. unfold extract_tar.
  unfold bind, ask, call, emit, singularity_message, ret, ABORT, exit_with,
    result_of, world_of, trace_of.
  destruct (archive_write_disk_set_options extract_flags w) as [r0 w1].
  cbn [fst snd].
  destruct (archive_read_open_filename tarfile w1) as [ro a]. cbn [fst snd].
  destruct (negb (ro =? 0)); [reflexivity|].
  destruct (chdir rootfs_dir w1) as [r2 w2]. cbn [fst snd].
  destruct (r2 <? 0); [reflexivity|].
  destruct (extract_loop (headers a) w2) as [[[[]|c] w3] t3]; cbn [fst snd];
    [|cbn; rewrite ?app_nil_r; reflexivity].
  destruct (chdir (get_current_dir_name w) w3) as [r3 w4]. cbn [fst snd].
  destruct (r3 <? 0); cbn; rewrite ?app_nil_r; reflexivity.
Qed.

(** X18: [extract_tar] returns only after it has changed back to the
    directory it was started in, and that [chdir] has succeeded; before it,
    the archive was opened and the [chdir] to the rootfs succeeded. *)
Theorem extract_tar_returns_in_the_starting_directory
    (tarfile rootfs_dir : string) (w : world) (r : Z) :
  result_of (extract_tar tarfile rootfs_dir w) = Ret r ->
  exists t ro rc rb,
    trace_of (extract_tar tarfile rootfs_dir w)
    = [EvOptions extract_flags; EvOpen tarfile ro; EvChdir rootfs_dir rc]
      ++ t ++ [EvChdir (get_current_dir_name w) rb]
    /\ ro = 0 /\ 0 <= rc /\ 0 <= rb.
Proof.
  rewrite (extract_tar_run tarfile rootfs_dir w). cbv zeta.
  destruct (fst (archive_read_open_filename tarfile _) =? 0) eqn:Ho;
    cbn [negb]; [|discriminate].
  apply Z.eqb_eq in Ho.
  destruct (fst (chdir rootfs_dir _) <? 0) eqn:Hc; [discriminate|].
  apply Z.ltb_ge in Hc.
  destruct (result_of (extract_loop _ _)) as [[]|c]; [|discriminate].
  destruct (fst (chdir (get_current_dir_name w) _) <? 0) eqn:Hb; [discriminate|].
  apply Z.ltb_ge in Hb. intros _. cbn [trace_of snd].
  do 4 eexists. split; [reflexivity|]. auto.
Qed.

(** X19: when the archive cannot be opened, or the [chdir] to the rootfs
    fails, [extract_tar] ends the process with status 255 and no header has
    been handed to the writer; in the first case it has not changed
    directory either. *)
Theorem extract_tar_fails_before_writing
    (tarfile rootfs_dir : string) (w : world) :
  let w1 := snd (archive_write_disk_set_options extract_flags w) in
  (fst (archive_read_open_filename tarfile w1) <> 0 ->
   result_of (extract_tar tarfile rootfs_dir w) = Exit 255
   /\ world_of (extract_tar tarfile rootfs_dir w) = w1
   /\ Forall (fun ev => forall p r, ev <> EvChdir p r)
             (trace_of (extract_tar tarfile rootfs_dir w))
   /\ headers_written (trace_of (extract_tar tarfile rootfs_dir w)) = [])
  /\ (fst (archive_read_open_filename tarfile w1) = 0 ->
      fst (chdir rootfs_dir w1) < 0 ->
      result_of (extract_tar tarfile rootfs_dir w) = Exit 255
      /\ world_of (extract_tar tarfile rootfs_dir w) = snd (chdir rootfs_dir w1)
      /\ headers_written (trace_of (extract_tar tarfile rootfs_dir w)) = []).
Proof.
  cbv zeta. rewrite (extract_tar_run tarfile rootfs_dir w). cbv zeta. split.
  - intros Ho. apply Z.eqb_neq in Ho. rewrite Ho. cbn [negb].
    repeat apply conj; try reflexivity. repeat constructor; discriminate.
  - intros Ho Hc. rewrite Ho. cbn [negb Z.eqb].
    apply Z.ltb_lt in Hc. rewrite Hc. repeat apply conj; reflexivity.
Qed.

End ExtractTarMore.

Section ExtractorFailures.
Context {world : Type} `{Sys world}.

(** X20: a failure of [archive_write_header], however severe, is only
    warned about: the entry is still finished, and whether the process goes
    on depends on [archive_write_finish_entry] alone. *)
Theorem failed_write_header_is_only_warned (e : entry) (w : world) :
  let wh := archive_write_header e w in
  let fin := archive_write_finish_entry (snd wh) in
  fst wh < ARCHIVE_OK ->
  extract_entry e w
  = (if fst fin <? ARCHIVE_WARN then Exit 255 else Ret tt, snd fin,
     EvWriteHeader e (fst wh)
     :: EvMessage WARNING "Warning handling tar header: %s\n" []
     :: finish_log (fst fin)).
Proof.
  cbv zeta. intros Hlt. apply Z.ltb_lt in Hlt.
  unfold extract_entry, finish_log.
  unfold bind, call, singularity_message, ABORT, exit_with, emit, ret.
  destruct (archive_write_header e w) as [r1 w1]. cbn [fst snd] in *.
  rewrite Hlt.
  destruct (archive_write_finish_entry w1) as [r2 w2]. cbn [fst snd].
  destruct (r2 <? ARCHIVE_OK), (r2 <? ARCHIVE_WARN); cbn; reflexivity.
Qed.

(** X21: when the data of an entry cannot be copied, [copy_data] returning
    a status below [ARCHIVE_WARN], the process ends with status 255 and the
    entry is not finished: [archive_write_finish_entry] is not called. *)
Theorem failed_copy_leaves_entry_unfinished (e : entry) (w : world) (r : Z) :
  let wh := archive_write_header e w in
  ARCHIVE_OK <= fst wh -> 0 < size e ->
  result_of (copy_data (blocks e) (snd wh)) = Ret r -> r < ARCHIVE_WARN ->
  result_of (extract_entry e w) = Exit 255
  /\ world_of (extract_entry e w) = world_of (copy_data (blocks e) (snd wh))
  /\ Forall (fun ev => forall r', ev <> EvFinishEntry r')
            (trace_of (extract_entry e w)).
Proof.
  cbv zeta. intros Hok Hsz Hr Hlt.
  assert (emits (fun ev => forall r', ev <> EvFinishEntry r')
                (@copy_data world _ (blocks e))) as Hcd.
  { generalize (blocks e). intros bs. induction bs as [|b bs IH]; intros w'.
    - constructor.
    - destruct (block_status_cases b) as [Hstop|[Heof Hge]].
      + rewrite (copy_data_stops _ _ _ Hstop). constructor.
      + rewrite (copy_data_cons _ _ _ Heof Hge). cbv zeta.
        destruct (fst _ <? ARCHIVE_OK); cbn [trace_of snd].
        * repeat constructor; discriminate.
        * constructor; [discriminate|apply IH]. }
  specialize (Hcd (snd (archive_write_header e w))).
  apply Z.ltb_ge in Hok. assert ((size e >? 0) = true) as Hgt by lia.
  assert ((r <? ARCHIVE_OK) = true) as Hrok
    by (unfold ARCHIVE_OK, ARCHIVE_WARN in *; lia).
  apply Z.ltb_lt in Hlt.
  unfold extract_entry.
  unfold bind, call, singularity_message, ABORT, exit_with, emit, ret in *.
  unfold result_of, world_of, trace_of in *.
  destruct (archive_write_header e w) as [r1 w1]. cbn [fst snd] in *.
  rewrite Hok, Hgt.
  destruct (copy_data (blocks e) w1) as [[o w2] t2]. cbn [fst snd] in *.
  subst o. rewrite Hrok, Hlt. cbn [fst snd].
  repeat apply conj; [reflexivity|reflexivity|].
  constructor; [discriminate|]. rewrite app_nil_r.
  apply Forall_app. split; [exact Hcd|]. repeat constructor; discriminate.
Qed.

End ExtractorFailures.

(* ===================================================================== *)
(** ** The added properties on concrete machines *)
(* ===================================================================== *)

Section MoreWitnesses.
Import Posix Scenario.

Lemma extract_entry_witness :
  headers_written (trace_of (extract_entry (h_entry (dir "d")) w_doc))
  = [h_entry (dir "d")]
  /\ data_written (trace_of (extract_entry (h_entry (dir "d")) w_doc)) = [].
Proof.
  destruct (extract_entry_header_then_data (h_entry (dir "d")) w_doc)
    as [Hh Hd].
  split; [exact Hh|]. apply Hd. right. vm_compute. discriminate.
Defined.

Lemma extract_loop_fatal_witness :
  h_status h_unreadable < ARCHIVE_WARN
  /\ result_of (extract_loop (h_unreadable :: plain_layer) w_doc) = Exit 255
  /\ headers_written
       (trace_of (extract_loop (h_unreadable :: plain_layer) w_doc)) = [].
Proof.
  assert (h_status h_unreadable < ARCHIVE_WARN) as Hf by (vm_compute; reflexivity).
  destruct (extract_loop_fatal_header h_unreadable plain_layer w_doc Hf)
    as (Hr & _ & Hh & _).
  repeat apply conj; assumption.
Defined.

Lemma extractor_order_witness :
  headers_written (trace_of (extract_loop plain_layer w_doc))
  = map h_entry plain_layer.
Proof.
  destruct (extractor_writes_entries_in_order plain_layer w_doc) as [_ Heq].
  apply Heq.
  - vm_compute. reflexivity.
  - repeat constructor; vm_compute; discriminate.
Defined.

Lemma scanner_stops_witness :
  h_status h_warned <> ARCHIVE_OK
  /\ apply_whiteouts_loop ([reg "a" "1"] ++ h_warned :: [marker "b/.wh.c"])
                          "/r" w_warned
     = apply_whiteouts_loop [reg "a" "1"] "/r" w_warned.
Proof.
  assert (h_status h_warned <> ARCHIVE_OK) as Hne by (vm_compute; intros [=]).
  split; [exact Hne|].
  exact (scanner_stops_at_first_unread_header
           [reg "a" "1"] [marker "b/.wh.c"] h_warned "/r" w_warned Hne).
Defined.

Lemma scanner_ignores_witness :
  apply_whiteouts_loop plain_layer "/r" w_doc = (Ret 0, w_doc, []).
Proof.
  apply (scanner_ignores_layer_without_markers plain_layer "/r" w_doc).
  repeat constructor.
Defined.

Lemma open_failure_witness :
  fst (archive_read_open_filename "/missing.tar" w_doc) <> ARCHIVE_OK
  /\ result_of (apply_whiteouts "/missing.tar" "/r" w_doc) = Ret 1
  /\ world_of (apply_whiteouts "/missing.tar" "/r" w_doc) = w_doc.
Proof.
  assert (fst (archive_read_open_filename "/missing.tar" w_doc) <> ARCHIVE_OK)
    as Hne by (vm_compute; intros [=]).
  split; [exact Hne|].
  rewrite (apply_whiteouts_open_failure "/missing.tar" "/r" w_doc Hne).
  split; reflexivity.
Defined.

Lemma free_failure_witness :
  result_of (apply_whiteouts "/t.tar" "/r" w_free_fails) = Exit 255
  /\ files (world_of (apply_whiteouts "/t.tar" "/r" w_free_fails))
       !! ["r"; "b"; "c"] = None.
Proof.
  destruct (apply_whiteouts_free_failure "/t.tar" "/r" w_free_fails)
    as (Hr & Hw & _).
  - vm_compute. reflexivity.
  - vm_compute. intros [=].
  - split; [exact Hr|]. rewrite Hw. vm_compute. reflexivity.
Defined.

Lemma apply_whiteout_witness :
  strstr "d/.wh.f" ".wh." = Some ".wh.f"%string
  /\ apply_whiteout "d/.wh.f" "/r" w_recreate
     = (Ret (fst (unlink "/r/d/f" w_recreate)), snd (unlink "/r/d/f" w_recreate),
        [EvMessage DEBUG "Removing whiteout-ed file: %s\n" ["/r/d/f"%string];
         EvUnlink "/r/d/f" (fst (unlink "/r/d/f" w_recreate))]).
Proof.
  assert (strstr "d/.wh.f" ".wh." = Some ".wh.f"%string) as Hs
    by (vm_compute; reflexivity).
  split; [exact Hs|].
  destruct (apply_whiteout_on_marker "d/.wh.f" ".wh.f" "/r" w_recreate Hs)
    as (_ & _ & Hf & _).
  apply Hf.
  - vm_compute. intros [=].
  - vm_compute. reflexivity.
Defined.

Lemma opaque_dir_witness :
  opaque_dir "etc/.wh..wh..opq" = Some "etc"%string
  /\ exists base, "etc/.wh..wh..opq"%string = ("etc" +:+ "/" +:+ base)%string
                  /\ contains base "/" = false.
Proof.
  assert (opaque_dir "etc/.wh..wh..opq" = Some "etc"%string) as Hq
    by (vm_compute; reflexivity).
  split; [exact Hq|].
  exact (opaque_dir_is_the_directory_part "etc/.wh..wh..opq" "etc" Hq).
Defined.

Lemma target_witness :
  derived ("usr/share/doc/test" +:+ "/.wh." +:+ "oldfile")
  = Some ("usr/share/doc/test" +:+ "/" +:+ "oldfile")%string.
Proof.
  apply (target_of_named_marker "usr/share/doc/test" "oldfile");
    vm_compute; reflexivity.
Defined.

Lemma bad_invocation_witness :
  result_of (main 3 argv w_doc) = Exit 255
  /\ world_of (main 3 argv w_doc) = w_doc.
Proof.
  destruct (main_rejects_bad_invocation 3 argv w_doc) as (Hr & Hw & _).
  - left. intros [=].
  - split; assumption.
Defined.

Lemma extract_tar_returns_witness :
  result_of (extract_tar "/t.tar" "/r" w_doc) = Ret 0
  /\ exists t ro rc rb,
      trace_of (extract_tar "/t.tar" "/r" w_doc)
      = [EvOptions extract_flags; EvOpen "/t.tar" ro; EvChdir "/r" rc]
        ++ t ++ [EvChdir (get_current_dir_name w_doc) rb]
      /\ ro = 0 /\ 0 <= rc /\ 0 <= rb.
Proof.
  assert (result_of (extract_tar "/t.tar" "/r" w_doc) = Ret 0) as Hr
    by (vm_compute; reflexivity).
  split; [exact Hr|].
  exact (extract_tar_returns_in_the_starting_directory "/t.tar" "/r" w_doc 0 Hr).
Defined.

Lemma extract_tar_fails_witness :
  result_of (extract_tar "/missing.tar" "/r" w_doc) = Exit 255
  /\ headers_written (trace_of (extract_tar "/missing.tar" "/r" w_doc)) = [].
Proof.
  destruct (extract_tar_fails_before_writing "/missing.tar" "/r" w_doc)
    as [Hopen _].
  destruct Hopen as (Hr & _ & _ & Hh).
  - vm_compute. intros [=].
  - split; assumption.
Defined.

Lemma failed_write_header_witness :
  fst (archive_write_header e_link w_doc) < ARCHIVE_OK
  /\ result_of (extract_entry e_link w_doc) = Ret tt
  /\ data_written (trace_of (extract_entry e_link w_doc)) = [].
Proof.
  assert (fst (archive_write_header e_link w_doc) < ARCHIVE_OK) as Hlt
    by (vm_compute; reflexivity).
  split; [exact Hlt|].
  rewrite (failed_write_header_is_only_warned e_link w_doc Hlt).
  split; vm_compute; reflexivity.
Defined.

Lemma failed_copy_witness :
  result_of (extract_entry e_damaged w_doc) = Exit 255
  /\ Forall (fun ev => forall r', ev <> EvFinishEntry r')
            (trace_of (extract_entry e_damaged w_doc)).
Proof.
  destruct (failed_copy_leaves_entry_unfinished e_damaged w_doc ARCHIVE_FATAL)
    as (Hr & _ & Ht).
  - vm_compute. intros [=].
  - vm_compute. reflexivity.
  - vm_compute. reflexivity.
  - vm_compute. reflexivity.
  - split; assumption.
Defined.

End MoreWitnesses.
